(** * Whatsminer API v3 client: protocol layer

    A shallow embedding of [whatsminer_interface.py] (the command codec:
    token derivation, parameter encryption, JSON envelopes) and of
    [whatsminer_trans.py] (the length-prefixed framing over a TCP socket),
    with the properties of the protocol layer stated and proved over it.

    Python values are modelled as follows:
    - [str]   : a list of Unicode code points ([N]);
    - [bytes] : a list of [Byte.byte];
    - [int]   : [Z]; lengths ([len]) are [nat];
    - a raised exception : the [Raise] constructor of [result]. *)

From Stdlib.Strings Require Import String Ascii Byte.
From Stdlib Require Import DecimalString.
From Stdlib Require Import ZArith NArith List Lia Bool.
Import ListNotations.

(** ** Exceptions and results *)

(** [ProtocolError] is the framing error of the protocol description; the
    other constructors are the exceptions the Python code can raise. *)
Inductive exn : Type :=
| UnicodeEncodeError
| UnicodeDecodeError
| ValueError (msg : string)
| RuntimeError (msg : string)
| StructError
| TypeError
| JSONDecodeError
| AttributeError
| KeyError
| ProtocolError (msg : string)
| OSError (errno : string).

Inductive result (A : Type) : Type :=
| Ok (a : A)
| Raise (e : exn).

Arguments Ok {A} a.
Arguments Raise {A} e.

Definition bind {A B} (r : result A) (k : A -> result B) : result B :=
  match r with
  | Ok a => k a
  | Raise e => Raise e
  end.

Declare Scope py_scope.
Delimit Scope py_scope with py.
Notation "x <- r ;; k" := (bind r (fun x => k))
  (at level 61, r at next level, right associativity) : py_scope.
Open Scope py_scope.

(** ** Python [bytes] and [str] *)

Definition bytes := list byte.
Definition pystr := list N.

(** The byte whose value is [n mod 256]. *)
Definition nb (n : N) : byte :=
  match Byte.of_N (n mod 256) with
  | Some b => b
  | None => x00
  end.

Definition bn (b : byte) : N := Byte.to_N b.

(** A Rocq string literal read as a Python [str] (one code point per
    character of the literal). *)
Fixpoint py (s : string) : pystr :=
  match s with
  | EmptyString => []
  | String a s' => N_of_ascii a :: py s'
  end.

(** The double quote, and a string between double quotes. *)
Definition dq : pystr := [34%N].
Definition quoted (s : pystr) : pystr := dq ++ s ++ dq.

(** [chr(n)] and [c * n] for a one-character string. *)
Definition chr (n : nat) : pystr := [N.of_nat n].

Fixpoint str_mul (s : pystr) (n : nat) : pystr :=
  match n with
  | O => []
  | S n' => s ++ str_mul s n'
  end.

(** [str(z)] for an [int]: decimal digits, a leading [-] when negative. *)
Definition str_of_int (z : Z) : pystr := py (NilZero.string_of_int (Z.to_int z)).

(** *** UTF-8 ([str.encode], [bytes.decode]) *)

Definition is_surrogate (c : N) : bool :=
  ((55296 <=? c) && (c <=? 57343))%N.

Definition utf8_encode_cp (c : N) : option bytes :=
  if (c <? 128)%N then Some [nb c]
  else if (c <? 2048)%N then
    Some [nb (192 + c / 64); nb (128 + c mod 64)]
  else if (c <? 65536)%N then
    if is_surrogate c then None
    else Some [nb (224 + c / 4096); nb (128 + (c / 64) mod 64);
               nb (128 + c mod 64)]
  else if (c <? 1114112)%N then
    Some [nb (240 + c / 262144); nb (128 + (c / 4096) mod 64);
          nb (128 + (c / 64) mod 64); nb (128 + c mod 64)]
  else None.

Fixpoint utf8_encode_opt (s : pystr) : option bytes :=
  match s with
  | [] => Some []
  | c :: s' =>
      match utf8_encode_cp c, utf8_encode_opt s' with
      | Some b, Some bs => Some (b ++ bs)
      | _, _ => None
      end
  end.

(** [s.encode("utf-8")] (also the default of [s.encode()]). *)
Definition encode (s : pystr) : result bytes :=
  match utf8_encode_opt s with
  | Some b => Ok b
  | None => Raise UnicodeEncodeError
  end.

Definition is_cont (b : byte) : bool :=
  ((128 <=? bn b) && (bn b <? 192))%N.

(** Strict decoding: continuation bytes checked, overlong forms,
    surrogates and values above U+10FFFF refused. *)
Fixpoint utf8_decode_opt (fuel : nat) (bs : bytes) : option pystr :=
  match fuel with
  | O => match bs with [] => Some [] | _ => None end
  | S fuel' =>
      match bs with
      | [] => Some []
      | b0 :: r0 =>
          let n0 := bn b0 in
          if (n0 <? 128)%N then
            option_map (cons n0) (utf8_decode_opt fuel' r0)
          else if (n0 <? 192)%N then None
          else if (n0 <? 224)%N then
            match r0 with
            | b1 :: r1 =>
                let c := ((n0 - 192) * 64 + (bn b1 - 128))%N in
                if is_cont b1 && (128 <=? c)%N
                then option_map (cons c) (utf8_decode_opt fuel' r1)
                else None
            | _ => None
            end
          else if (n0 <? 240)%N then
            match r0 with
            | b1 :: b2 :: r2 =>
                let c := ((n0 - 224) * 4096 + (bn b1 - 128) * 64
                          + (bn b2 - 128))%N in
                if is_cont b1 && is_cont b2 && (2048 <=? c)%N
                   && negb (is_surrogate c)
                then option_map (cons c) (utf8_decode_opt fuel' r2)
                else None
            | _ => None
            end
          else if (n0 <? 248)%N then
            match r0 with
            | b1 :: b2 :: b3 :: r3 =>
                let c := ((n0 - 240) * 262144 + (bn b1 - 128) * 4096
                          + (bn b2 - 128) * 64 + (bn b3 - 128))%N in
                if is_cont b1 && is_cont b2 && is_cont b3
                   && (65536 <=? c)%N && (c <? 1114112)%N
                then option_map (cons c) (utf8_decode_opt fuel' r3)
                else None
            | _ => None
            end
          else None
      end
  end.

(** [b.decode("utf-8")] (also the default of [b.decode()]).  Every
    character consumes at least one byte, so [length b] steps suffice. *)
Definition decode (b : bytes) : result pystr :=
  match utf8_decode_opt (length b) b with
  | Some s => Ok s
  | None => Raise UnicodeDecodeError
  end.

(** ** [base64.b64encode] *)

Definition b64_alphabet : string :=
  "ABCDEFGHIJKLMNOPQRSTUVWXYZabcdefghijklmnopqrstuvwxyz0123456789+/".

Definition b64_char (i : N) : byte :=
  match String.get (N.to_nat (i mod 64)) b64_alphabet with
  | Some a => byte_of_ascii a
  | None => x00
  end.

Definition b64_pad : byte := byte_of_ascii "=".

Fixpoint b64encode (bs : bytes) : bytes :=
  match bs with
  | [] => []
  | [a] =>
      let n := (bn a * 65536)%N in
      [b64_char (n / 262144); b64_char (n / 4096); b64_pad; b64_pad]
  | [a; b] =>
      let n := (bn a * 65536 + bn b * 256)%N in
      [b64_char (n / 262144); b64_char (n / 4096); b64_char (n / 64);
       b64_pad]
  | a :: b :: c :: rest =>
      let n := (bn a * 65536 + bn b * 256 + bn c)%N in
      b64_char (n / 262144) :: b64_char (n / 4096) :: b64_char (n / 64)
        :: b64_char n :: b64encode rest
  end.

(** Lower-case hexadecimal text of a byte string ([bytes.hex()]). *)
Definition hex_char (n : N) : N :=
  if (n mod 16 <? 10)%N then (48 + n mod 16)%N else (87 + n mod 16)%N.

Definition hex_of_bytes (b : bytes) : pystr :=
  flat_map (fun x => [hex_char (bn x / 16); hex_char (bn x)]) b.

(** ** [hashlib.sha256] (FIPS 180-4) *)

Module SHA256.

Definition w32 (n : N) : N := (n mod 4294967296)%N.
Definition add32 (a b : N) : N := w32 (a + b).
Definition rotr (n x : N) : N :=
  N.lor (N.shiftr x n) (w32 (N.shiftl x (32 - n))).
Definition not32 (x : N) : N := N.lxor x 4294967295.

Definition Ch (x y z : N) : N :=
  N.lxor (N.land x y) (N.land (not32 x) z).
Definition Maj (x y z : N) : N :=
  N.lxor (N.lxor (N.land x y) (N.land x z)) (N.land y z).
Definition bsig0 (x : N) : N :=
  N.lxor (N.lxor (rotr 2 x) (rotr 13 x)) (rotr 22 x).
Definition bsig1 (x : N) : N :=
  N.lxor (N.lxor (rotr 6 x) (rotr 11 x)) (rotr 25 x).
Definition ssig0 (x : N) : N :=
  N.lxor (N.lxor (rotr 7 x) (rotr 18 x)) (N.shiftr x 3).
Definition ssig1 (x : N) : N :=
  N.lxor (N.lxor (rotr 17 x) (rotr 19 x)) (N.shiftr x 10).

(** The constants are fractional parts of roots of the first primes:
    cube roots for [K], square roots for the initial hash value. *)
Definition is_prime (p : nat) : bool :=
  forallb (fun d => negb (p mod d =? 0)%nat) (seq 2 (p - 2)).

Definition primes : list N :=
  Eval vm_compute in map N.of_nat (filter is_prime (seq 2 310)).

(** The largest [r] below [2 ^ bits] with [r ^ 3 <= n], found bit by bit. *)
Fixpoint cube_root_bits (bits : nat) (n r : N) : N :=
  match bits with
  | O => r
  | S bits' =>
      let r' := (r + 2 ^ N.of_nat bits')%N in
      cube_root_bits bits' n (if (r' * r' * r' <=? n)%N then r' else r)
  end.

Definition frac_cbrt (p : N) : N := w32 (cube_root_bits 36 (p * 2 ^ 96) 0).
Definition frac_sqrt (p : N) : N := w32 (N.sqrt (p * 2 ^ 64)).

Definition K : list N := Eval vm_compute in map frac_cbrt primes.

(** The eight working variables [a..h], also the hash value. *)
Record state : Type := mkState {
  sa : N; sb : N; sc : N; sd : N; se : N; sf : N; sg : N; sh : N
}.

Definition H0 : state :=
  Eval vm_compute in
    mkState (frac_sqrt 2) (frac_sqrt 3) (frac_sqrt 5) (frac_sqrt 7)
            (frac_sqrt 11) (frac_sqrt 13) (frac_sqrt 17) (frac_sqrt 19).

Definition round (k w : N) (s : state) : state :=
  let t1 := add32 (add32 (add32 (add32 (sh s) (bsig1 (se s)))
                                (Ch (se s) (sf s) (sg s))) k) w in
  let t2 := add32 (bsig0 (sa s)) (Maj (sa s) (sb s) (sc s)) in
  mkState (add32 t1 t2) (sa s) (sb s) (sc s)
          (add32 (sd s) t1) (se s) (sf s) (sg s).

(** The message schedule as a sliding window of sixteen words. *)
Definition next_window (w : list N) : list N :=
  tl w ++ [add32 (add32 (add32 (ssig1 (nth 14 w 0%N)) (nth 9 w 0%N))
                        (ssig0 (nth 1 w 0%N))) (nth 0 w 0%N)].

Fixpoint rounds (ks : list N) (w : list N) (s : state) : state :=
  match ks with
  | [] => s
  | k :: ks' => rounds ks' (next_window w) (round k (nth 0 w 0%N) s)
  end.

Definition compress (h : state) (block : list N) : state :=
  let s := rounds K block h in
  mkState (add32 (sa h) (sa s)) (add32 (sb h) (sb s))
          (add32 (sc h) (sc s)) (add32 (sd h) (sd s))
          (add32 (se h) (se s)) (add32 (sf h) (sf s))
          (add32 (sg h) (sg s)) (add32 (sh h) (sh s)).

Fixpoint words_of_bytes (bs : bytes) : list N :=
  match bs with
  | a :: b :: c :: d :: rest =>
      (bn a * 16777216 + bn b * 65536 + bn c * 256 + bn d)%N
        :: words_of_bytes rest
  | _ => []
  end.

Definition bytes_of_word (w : N) : bytes :=
  [nb (w / 16777216); nb (w / 65536); nb (w / 256); nb w].

Definition be64 (n : N) : bytes :=
  bytes_of_word (n / 4294967296) ++ bytes_of_word n.

Definition pad (msg : bytes) : bytes :=
  let l := length msg in
  msg ++ [nb 128] ++ repeat x00 ((119 - l mod 64) mod 64)
      ++ be64 (8 * N.of_nat l).

Fixpoint process (fuel : nat) (ws : list N) (h : state) : state :=
  match fuel with
  | O => h
  | S fuel' =>
      match ws with
      | [] => h
      | _ => process fuel' (skipn 16 ws) (compress h (firstn 16 ws))
      end
  end.

Definition digest_of_state (h : state) : bytes :=
  bytes_of_word (sa h) ++ bytes_of_word (sb h) ++ bytes_of_word (sc h)
    ++ bytes_of_word (sd h) ++ bytes_of_word (se h) ++ bytes_of_word (sf h)
    ++ bytes_of_word (sg h) ++ bytes_of_word (sh h).

(** [hashlib.sha256(msg).digest()] *)
Definition digest (msg : bytes) : bytes :=
  let ws := words_of_bytes (pad msg) in
  digest_of_state (process (length ws) ws H0).

End SHA256.

(** ** [Cryptodome.Cipher.AES] in ECB mode (FIPS 197) *)

Module AES.

Definition bxor (a b : byte) : byte := nb (N.lxor (bn a) (bn b)).

(** Multiplication by [x] in GF(2^8) modulo [x^8 + x^4 + x^3 + x + 1]. *)
Definition xtime (a : byte) : byte :=
  let n := (bn a * 2)%N in
  nb (if (n <? 256)%N then n else N.lxor n 283).

Fixpoint gmul_aux (steps : nat) (a : byte) (b : N) : byte :=
  match steps with
  | O => x00
  | S steps' =>
      let r := gmul_aux steps' (xtime a) (b / 2) in
      if N.odd b then bxor a r else r
  end.

Definition gmul (a b : byte) : byte := gmul_aux 8 a (bn b).

Definition gsq (a : byte) : byte := gmul a a.

(** The multiplicative inverse ([a^254]), with [0] mapped to [0]. *)
Definition ginv (a : byte) : byte :=
  let a2 := gsq a in
  let a4 := gsq a2 in
  let a8 := gsq a4 in
  let a16 := gsq a8 in
  let a32 := gsq a16 in
  let a64 := gsq a32 in
  let a128 := gsq a64 in
  gmul a128 (gmul a64 (gmul a32 (gmul a16 (gmul a8 (gmul a4 a2))))).

Definition rotl8 (a : byte) (k : N) : byte :=
  nb (N.lor (N.shiftl (bn a) k) (N.shiftr (bn a) (8 - k))).

Definition sbox_calc (a : byte) : byte :=
  let b := ginv a in
  bxor b (bxor (rotl8 b 1) (bxor (rotl8 b 2) (bxor (rotl8 b 3)
    (bxor (rotl8 b 4) (nb 99))))).

Definition all_bytes : bytes :=
  Eval vm_compute in map (fun i => nb (N.of_nat i)) (seq 0 256).

Definition sbox_table : bytes :=
  Eval vm_compute in map sbox_calc all_bytes.

Definition sbox (a : byte) : byte :=
  nth (N.to_nat (bn a)) sbox_table x00.

(** *** Key expansion *)

Definition word := list byte.

Definition xor_bytes (a b : bytes) : bytes :=
  map (fun p => bxor (fst p) (snd p)) (combine a b).

Definition rot_word (w : word) : word :=
  match w with
  | a :: r => r ++ [a]
  | [] => []
  end.

Definition sub_word (w : word) : word := map sbox w.

Fixpoint rcon (j : nat) : byte :=
  match j with
  | O => x00
  | S O => x01
  | S j' => xtime (rcon j')
  end.

Fixpoint words_of_key (k : bytes) : list word :=
  match k with
  | a :: b :: c :: d :: rest => [a; b; c; d] :: words_of_key rest
  | _ => []
  end.

(** [w[i] = w[i - Nk] xor temp], appended [count] times from index [i]. *)
Fixpoint expand (count : nat) (Nk i : nat) (w : list word) : list word :=
  match count with
  | O => w
  | S count' =>
      let prev := nth (i - 1) w [] in
      let temp :=
        if (i mod Nk =? 0)%nat then
          xor_bytes (sub_word (rot_word prev)) [rcon (i / Nk); x00; x00; x00]
        else if ((6 <? Nk) && (i mod Nk =? 4))%nat then sub_word prev
        else prev in
      expand count' Nk (S i) (w ++ [xor_bytes (nth (i - Nk) w []) temp])
  end.

Definition key_expansion (key : bytes) : list word :=
  let Nk := (length key / 4)%nat in
  expand (4 * (Nk + 7) - Nk) Nk Nk (words_of_key key).

(** *** The cipher on one 16-byte block (column-major state) *)

Definition sub_bytes (s : bytes) : bytes := map sbox s.

Definition shift_rows (s : bytes) : bytes :=
  match s with
  | [s0; s1; s2; s3; s4; s5; s6; s7; s8; s9; s10; s11; s12; s13; s14; s15] =>
      [s0; s5; s10; s15; s4; s9; s14; s3; s8; s13; s2; s7; s12; s1; s6; s11]
  | _ => s
  end.

Definition mul2 (a : byte) : byte := xtime a.
Definition mul3 (a : byte) : byte := bxor (xtime a) a.

Definition mix_column (a0 a1 a2 a3 : byte) : bytes :=
  [bxor (mul2 a0) (bxor (mul3 a1) (bxor a2 a3));
   bxor a0 (bxor (mul2 a1) (bxor (mul3 a2) a3));
   bxor a0 (bxor a1 (bxor (mul2 a2) (mul3 a3)));
   bxor (mul3 a0) (bxor a1 (bxor a2 (mul2 a3)))].

Fixpoint mix_columns (s : bytes) : bytes :=
  match s with
  | a0 :: a1 :: a2 :: a3 :: rest => mix_column a0 a1 a2 a3 ++ mix_columns rest
  | _ => []
  end.

Definition round_key (w : list word) (r : nat) : bytes :=
  concat (firstn 4 (skipn (4 * r) w)).

Definition add_round_key (w : list word) (r : nat) (s : bytes) : bytes :=
  xor_bytes s (round_key w r).

Fixpoint middle_rounds (w : list word) (count r : nat) (s : bytes) : bytes :=
  match count with
  | O => s
  | S count' =>
      middle_rounds w count' (S r)
        (add_round_key w r (mix_columns (shift_rows (sub_bytes s))))
  end.

Definition encrypt_block (w : list word) (Nr : nat) (block : bytes) : bytes :=
  let s := add_round_key w 0 block in
  let s := middle_rounds w (Nr - 1) 1 s in
  add_round_key w Nr (shift_rows (sub_bytes s)).

(** *** The cipher object *)

Record cipher : Type := mkCipher { round_keys : list word; Nr : nat }.

(** [AES.new(key, AES.MODE_ECB)] *)
Definition new (key : bytes) : result cipher :=
  let l := length key in
  if ((l =? 16) || (l =? 24) || (l =? 32))%nat
  then Ok (mkCipher (key_expansion key) (l / 4 + 6))
  else Raise (ValueError "Incorrect AES key length").

Fixpoint ecb_blocks (c : cipher) (fuel : nat) (data : bytes) : bytes :=
  match fuel with
  | O => []
  | S fuel' =>
      match data with
      | [] => []
      | _ => encrypt_block (round_keys c) (Nr c) (firstn 16 data)
               ++ ecb_blocks c fuel' (skipn 16 data)
      end
  end.

(** [cipher.encrypt(data)] *)
Definition encrypt (c : cipher) (data : bytes) : result bytes :=
  if (length data mod 16 =? 0)%nat
  then Ok (ecb_blocks c (length data) data)
  else Raise (ValueError "Data must be aligned to block boundary in ECB mode").

(** *** The inverse cipher (the device's side)

    Not used by the client; it is what undoes [encrypt]. *)

Definition inv_sbox_table : bytes :=
  Eval vm_compute in
    map (fun y =>
           match find (fun x => Byte.eqb (sbox x) y) all_bytes with
           | Some x => x
           | None => x00
           end) all_bytes.

Definition inv_sbox (a : byte) : byte :=
  nth (N.to_nat (bn a)) inv_sbox_table x00.

Definition inv_sub_bytes (s : bytes) : bytes := map inv_sbox s.

Definition inv_shift_rows (s : bytes) : bytes :=
  match s with
  | [s0; s1; s2; s3; s4; s5; s6; s7; s8; s9; s10; s11; s12; s13; s14; s15] =>
      [s0; s13; s10; s7; s4; s1; s14; s11; s8; s5; s2; s15; s12; s9; s6; s3]
  | _ => s
  end.

Definition mul9 (a : byte) : byte := gmul a (nb 9).
Definition mul11 (a : byte) : byte := gmul a (nb 11).
Definition mul13 (a : byte) : byte := gmul a (nb 13).
Definition mul14 (a : byte) : byte := gmul a (nb 14).

Definition inv_mix_column (a0 a1 a2 a3 : byte) : bytes :=
  [bxor (mul14 a0) (bxor (mul11 a1) (bxor (mul13 a2) (mul9 a3)));
   bxor (mul9 a0) (bxor (mul14 a1) (bxor (mul11 a2) (mul13 a3)));
   bxor (mul13 a0) (bxor (mul9 a1) (bxor (mul14 a2) (mul11 a3)));
   bxor (mul11 a0) (bxor (mul13 a1) (bxor (mul9 a2) (mul14 a3)))].

Fixpoint inv_mix_columns (s : bytes) : bytes :=
  match s with
  | a0 :: a1 :: a2 :: a3 :: rest =>
      inv_mix_column a0 a1 a2 a3 ++ inv_mix_columns rest
  | _ => []
  end.

(** [inv_mix_column] after [mix_column], on the four bytes of a column. *)
Definition unmix (a0 a1 a2 a3 : byte) : bytes :=
  match mix_column a0 a1 a2 a3 with
  | [y0; y1; y2; y3] => inv_mix_column y0 y1 y2 y3
  | _ => []
  end.

Definition bytes_eqb (a b : bytes) : bool :=
  (length a =? length b)%nat
  && forallb (fun p => Byte.eqb (fst p) (snd p)) (combine a b).

(** Undoes [middle_rounds w count r]: the rounds [r + count - 1] down to
    [r]. *)
Fixpoint inv_middle_rounds (w : list word) (count r : nat) (s : bytes) : bytes :=
  match count with
  | O => s
  | S count' =>
      inv_sub_bytes
        (inv_shift_rows
           (inv_mix_columns
              (add_round_key w r (inv_middle_rounds w count' (S r) s))))
  end.

Definition decrypt_block (w : list word) (Nr : nat) (block : bytes) : bytes :=
  let s := inv_sub_bytes (inv_shift_rows (add_round_key w Nr block)) in
  let s := inv_middle_rounds w (Nr - 1) 1 s in
  add_round_key w 0 s.

Fixpoint ecb_decrypt_blocks (c : cipher) (fuel : nat) (data : bytes) : bytes :=
  match fuel with
  | O => []
  | S fuel' =>
      match data with
      | [] => []
      | _ => decrypt_block (round_keys c) (Nr c) (firstn 16 data)
               ++ ecb_decrypt_blocks c fuel' (skipn 16 data)
      end
  end.

(** [cipher.decrypt(data)] *)
Definition decrypt (c : cipher) (data : bytes) : result bytes :=
  if (length data mod 16 =? 0)%nat
  then Ok (ecb_decrypt_blocks c (length data) data)
  else Raise (ValueError "Data must be aligned to block boundary in ECB mode").

(** A key schedule for [Nr] rounds: [4 * (Nr + 1)] words of four bytes. *)
Definition word4 (w : word) : Prop := length w = 4%nat.

Definition schedule_ok (w : list word) (Nr : nat) : Prop :=
  length w = (4 * (Nr + 1))%nat /\ Forall word4 w.

End AES.

(** ** Python values and [json.dumps] *)

(** The values a caller can pass as [param: Any].  [POpaque] stands for
    any object [json.dumps] cannot serialise; floats are not modelled.
    A [dict] keeps its insertion order and has [str] keys. *)
#[warnings="-register-all"]
Inductive pyval : Type :=
| PNone
| PBool (b : bool)
| PInt (z : Z)
| PStr (s : pystr)
| PList (l : list pyval)
| PDict (d : list (pystr * pyval))
| POpaque.

Definition pydict := list (pystr * pyval).

(** Induction over values, through the lists and dictionaries. *)
Section PyvalInduction.

Variable P : pyval -> Prop.
Hypothesis HNone : P PNone.
Hypothesis HBool : forall b, P (PBool b).
Hypothesis HInt : forall z, P (PInt z).
Hypothesis HStr : forall s, P (PStr s).
Hypothesis HList : forall l, Forall P l -> P (PList l).
Hypothesis HDict : forall d, Forall (fun kv => P (snd kv)) d -> P (PDict d).
Hypothesis HOpaque : P POpaque.

Fixpoint pyval_nested_ind (v : pyval) : P v :=
  match v with
  | PNone => HNone
  | PBool b => HBool b
  | PInt z => HInt z
  | PStr s => HStr s
  | PList l =>
      HList l ((fix go (l : list pyval) : Forall P l :=
                  match l with
                  | [] => Forall_nil P
                  | x :: r => Forall_cons x (pyval_nested_ind x) (go r)
                  end) l)
  | PDict d =>
      HDict d ((fix go (d : pydict) : Forall (fun kv => P (snd kv)) d :=
                  match d with
                  | [] => Forall_nil _
                  | kv :: r => Forall_cons kv (pyval_nested_ind (snd kv)) (go r)
                  end) d)
  | POpaque => HOpaque
  end.

End PyvalInduction.


Fixpoint pystr_eqb (a b : pystr) : bool :=
  match a, b with
  | [], [] => true
  | x :: a', y :: b' => (x =? y)%N && pystr_eqb a' b'
  | _, _ => false
  end.

(** [d[k]] as [d.get(k)]. *)
Fixpoint dict_get (k : pystr) (d : pydict) : option pyval :=
  match d with
  | [] => None
  | (k', v) :: d' => if pystr_eqb k k' then Some v else dict_get k d'
  end.

(** [d[k] = v]: an existing key keeps its position, a new key goes last. *)
Fixpoint dict_set (k : pystr) (v : pyval) (d : pydict) : pydict :=
  match d with
  | [] => [(k, v)]
  | (k', v') :: d' =>
      if pystr_eqb k k' then (k', v) :: d' else (k', v') :: dict_set k v d'
  end.

(** [d.update(other)] *)
Definition dict_update (d other : pydict) : pydict :=
  fold_left (fun acc kv => dict_set (fst kv) (snd kv) acc) other d.


Definition hex_digit (n : N) : N :=
  if (n mod 16 <? 10)%N then (48 + n mod 16)%N else (87 + n mod 16)%N.

(** [\uXXXX] *)
Definition escape_u (n : N) : pystr :=
  py "\u" ++ [hex_digit (n / 4096); hex_digit (n / 256); hex_digit (n / 16);
              hex_digit n].

(** One character under [ensure_ascii=True]. *)
Definition escape_char (c : N) : pystr :=
  if (c =? 34)%N then [92%N; 34%N]
  else if (c =? 92)%N then py "\\"
  else if (c =? 8)%N then py "\b"
  else if (c =? 12)%N then py "\f"
  else if (c =? 10)%N then py "\n"
  else if (c =? 13)%N then py "\r"
  else if (c =? 9)%N then py "\t"
  else if ((32 <=? c) && (c <=? 126))%N then [c]
  else if (c <? 65536)%N then escape_u c
  else
    let n := (c - 65536)%N in
    escape_u (55296 + (n / 1024) mod 1024) ++ escape_u (56320 + n mod 1024).

Definition encode_basestring_ascii (s : pystr) : pystr :=
  [34%N] ++ flat_map escape_char s ++ [34%N].

(** [sep.join(items)] *)
Fixpoint join (sep : pystr) (items : list pystr) : pystr :=
  match items with
  | [] => []
  | [x] => x
  | x :: rest => x ++ sep ++ join sep rest
  end.

Fixpoint sequence {A} (l : list (option A)) : option (list A) :=
  match l with
  | [] => Some []
  | Some a :: l' => option_map (cons a) (sequence l')
  | None :: _ => None
  end.

(** [json.dumps(v)] with the default arguments ([ensure_ascii=True],
    separators [", "] and [": "]); [None] when [v] is not serialisable. *)
Fixpoint json_dumps_opt (v : pyval) : option pystr :=
  match v with
  | PNone => Some (py "null")
  | PBool true => Some (py "true")
  | PBool false => Some (py "false")
  | PInt z => Some (str_of_int z)
  | PStr s => Some (encode_basestring_ascii s)
  | PList l =>
      option_map (fun items => py "[" ++ join (py ", ") items ++ py "]")
        (sequence (map json_dumps_opt l))
  | PDict d =>
      option_map (fun items => py "{" ++ join (py ", ") items ++ py "}")
        (sequence (map (fun kv =>
            option_map (fun t => encode_basestring_ascii (fst kv) ++ py ": " ++ t)
              (json_dumps_opt (snd kv))) d))
  | POpaque => None
  end.

Definition json_dumps (v : pyval) : result pystr :=
  match json_dumps_opt v with
  | Some s => Ok s
  | None => Raise TypeError
  end.

(** ** [whatsminer_interface.py]: class [WhatsminerAPIv3] *)

Record WhatsminerAPIv3 : Type := mkAPI {
  account : pystr;
  password : pystr;
  salt : pystr
}.

(** [__init__] *)
Definition WhatsminerAPIv3_init (account password : pystr) : WhatsminerAPIv3 :=
  mkAPI account password [].

Definition set_salt (self : WhatsminerAPIv3) (salt : pystr) : WhatsminerAPIv3 :=
  mkAPI (account self) (password self) salt.

Definition _generate_token (self : WhatsminerAPIv3) (command : pystr) (ts : Z)
  : result pystr :=
  let src_buff := command ++ password self ++ salt self ++ str_of_int ts in
  src_bytes <- encode src_buff ;;
  let aes_key := SHA256.digest src_bytes in
  dst_buff <- decode (b64encode aes_key) ;;
  Ok (firstn 8 dst_buff).

Definition _encrypt_param (self : WhatsminerAPIv3) (param command : pystr)
  (ts : Z) : result pystr :=
  let src_buff := command ++ password self ++ salt self ++ str_of_int ts in
  src_bytes <- encode src_buff ;;
  let aes_key := SHA256.digest src_bytes in
  let pad_len := (16 - (length param mod 16))%nat in
  let padded_param := param ++ str_mul (chr pad_len) pad_len in
  cipher <- AES.new aes_key ;;
  padded_bytes <- encode padded_param ;;
  encrypted_bytes <- AES.encrypt cipher padded_bytes ;;
  decode (b64encode encrypted_bytes).

(** The builders read the clock once: [now] is [int(time.time())]. *)

Definition get_request_payload (cmd : pystr) (param : pyval) : pydict :=
  [(py "cmd", PStr cmd); (py "param", param)].

Definition get_request_cmds (self : WhatsminerAPIv3) (cmd : pystr)
  (param : pyval) : result pystr :=
  let payload := get_request_payload cmd param in
  json_dumps (PDict payload).

Definition set_request_payload (self : WhatsminerAPIv3) (now : Z) (cmd : pystr)
  (param : pyval) : result pydict :=
  let payload := [(py "cmd", PStr cmd); (py "param", param)] in
  let ts := now in
  token <- _generate_token self cmd ts ;;
  let payload := dict_set (py "ts") (PInt ts) payload in
  let payload := dict_set (py "token") (PStr token) payload in
  let payload := dict_set (py "account") (PStr (account self)) payload in
  Ok payload.

Definition set_request_cmds (self : WhatsminerAPIv3) (now : Z) (cmd : pystr)
  (param : pyval) : result pystr :=
  payload <- set_request_payload self now cmd param ;;
  json_dumps (PDict payload).

(** [set_miner_pools] and [set_user_passwd] start from
    [payload = {"cmd": command}] and add [ts], [token], [account] and the
    encrypted [param] with one [payload.update]; the [*_payload] functions
    give the dictionary handed to [json.dumps]. *)

Definition set_miner_pools_payload (self : WhatsminerAPIv3) (now : Z)
  (pool_url1 work_user1 work_passwd1 pool_url2 work_user2 work_passwd2
   pool_url3 work_user3 work_passwd3 : pystr) : result pydict :=
  let command := py "set.miner.pools" in
  let param_data :=
    PList
      [PDict [(py "pool", PStr pool_url1); (py "worker", PStr work_user1);
              (py "passwd", PStr work_passwd1)];
       PDict [(py "pool", PStr pool_url2); (py "worker", PStr work_user2);
              (py "passwd", PStr work_passwd2)];
       PDict [(py "pool", PStr pool_url3); (py "worker", PStr work_user3);
              (py "passwd", PStr work_passwd3)]] in
  let payload := [(py "cmd", PStr command)] in
  let ts := now in
  token <- _generate_token self command ts ;;
  plaintext <- json_dumps param_data ;;
  encrypted <- _encrypt_param self plaintext command ts ;;
  Ok (dict_update payload
        [(py "ts", PInt ts); (py "token", PStr token);
         (py "account", PStr (account self)); (py "param", PStr encrypted)]).

Definition set_miner_pools (self : WhatsminerAPIv3) (now : Z)
  (pool_url1 work_user1 work_passwd1 pool_url2 work_user2 work_passwd2
   pool_url3 work_user3 work_passwd3 : pystr) : result pystr :=
  payload <- set_miner_pools_payload self now
               pool_url1 work_user1 work_passwd1
               pool_url2 work_user2 work_passwd2
               pool_url3 work_user3 work_passwd3 ;;
  json_dumps (PDict payload).

Definition set_user_passwd_payload (self : WhatsminerAPIv3) (now : Z)
  (username old_passwd new_passwd : pystr) : result pydict :=
  let cmd := py "set.user.change_passwd" in
  let param_data :=
    PDict [(py "account", PStr username); (py "new", PStr new_passwd);
           (py "old", PStr old_passwd)] in
  let payload := [(py "cmd", PStr cmd)] in
  let ts := now in
  token <- _generate_token self cmd ts ;;
  plaintext <- json_dumps param_data ;;
  encrypted <- _encrypt_param self plaintext cmd ts ;;
  Ok (dict_update payload
        [(py "ts", PInt ts); (py "token", PStr token);
         (py "account", PStr (account self)); (py "param", PStr encrypted)]).

Definition set_user_passwd (self : WhatsminerAPIv3) (now : Z)
  (username old_passwd new_passwd : pystr) : result pystr :=
  payload <- set_user_passwd_payload self now username old_passwd new_passwd ;;
  json_dumps (PDict payload).

(** Three members of the command catalogue. *)

Definition set_miner_cointype (self : WhatsminerAPIv3) (now : Z)
  (cointype : pystr) : result pystr :=
  let payload := PDict [(py "cointype", PStr cointype)] in
  p <- json_dumps payload ;;
  set_request_cmds self now (py "set.miner.cointype") (PStr p).

Definition set_miner_service (self : WhatsminerAPIv3) (now : Z) (param : pystr)
  : result pystr :=
  set_request_cmds self now (py "set.miner.service") (PStr param).

Definition set_miner_restore_setting (self : WhatsminerAPIv3) (now : Z)
  : result pystr :=
  set_request_cmds self now (py "set.miner.restore_setting") PNone.

(** The codec of the worked example of the protocol description: account
    and password [super], salt [ab12cd34]. *)
Definition demo_api : WhatsminerAPIv3 :=
  set_salt (WhatsminerAPIv3_init (py "super") (py "super")) (py "ab12cd34").

Definition demo_ts : Z := 1700000000.

(** ** [struct.pack("<I", n)] and [struct.unpack("<I", b)] *)

Definition struct_pack_I (n : Z) : result bytes :=
  if ((0 <=? n) && (n <? 4294967296))%Z then
    let u := Z.to_N n in
    Ok [nb u; nb (u / 256); nb (u / 65536); nb (u / 16777216)]
  else Raise StructError.

Definition struct_unpack_I (b : bytes) : result N :=
  match b with
  | [b0; b1; b2; b3] =>
      Ok (bn b0 + 256 * bn b1 + 65536 * bn b2 + 16777216 * bn b3)%N
  | _ => Raise StructError
  end.

(** ** A stream socket

    The peer is a script: the segments it still delivers, in order, after
    which it closes its side ([recv] then returns [b""]).  [calls] logs the
    operations performed on the socket, oldest first.

    The peer closes in order.  A connection reset by the peer, on which
    [recv] and [sendall] raise and a later [shutdown] fails, is outside
    the model: what is proved of a connected socket is proved of
    exchanges whose bytes are delivered. *)

Inductive sock_status : Type := Fresh | Connected | Closed.

Inductive call : Type :=
| CRecv (bufsize : nat)
| CSendall (data : bytes)
| CShutdown
| CClose.

Record socket : Type := mkSocket {
  status : sock_status;
  incoming : list bytes;
  outgoing : bytes;
  calls : list call
}.

(** State and exception: an operation maps a state to an outcome and the
    state it leaves. *)
Definition SM (St A : Type) : Type := St -> result A * St.

Definition sret {St A} (a : A) : SM St A := fun s => (Ok a, s).
Definition sraise {St A} (e : exn) : SM St A := fun s => (Raise e, s).
Definition sbind {St A B} (m : SM St A) (k : A -> SM St B) : SM St B :=
  fun s =>
    match m s with
    | (Ok a, s') => k a s'
    | (Raise e, s') => (Raise e, s')
    end.
Definition lift {St A} (r : result A) : SM St A := fun s => (r, s).

Notation "x <~ m ;; k" := (sbind m (fun x => k))
  (at level 61, m at next level, right associativity) : py_scope.
Notation "m ;;; k" := (sbind m (fun _ => k))
  (at level 61, right associativity) : py_scope.

Definition log (c : call) (s : socket) : socket :=
  mkSocket (status s) (incoming s) (outgoing s) (calls s ++ [c]).

(** What one [recv(bufsize)] takes from the pending segments. *)
Fixpoint take_chunk (bufsize : nat) (chunks : list bytes) : bytes * list bytes :=
  match chunks with
  | [] => ([], [])
  | [] :: rest => take_chunk bufsize rest
  | c :: rest =>
      if (length c <=? bufsize)%nat then (c, rest)
      else (firstn bufsize c, skipn bufsize c :: rest)
  end.

Definition sock_recv (bufsize : nat) : SM socket bytes := fun s =>
  let s := log (CRecv bufsize) s in
  match status s with
  | Connected =>
      let (data, rest) := take_chunk bufsize (incoming s) in
      (Ok data, mkSocket (status s) rest (outgoing s) (calls s))
  | Fresh => (Raise (OSError "ENOTCONN"), s)
  | Closed => (Raise (OSError "EBADF"), s)
  end.

Definition sock_sendall (data : bytes) : SM socket unit := fun s =>
  let s := log (CSendall data) s in
  match status s with
  | Connected =>
      (Ok tt, mkSocket (status s) (incoming s) (outgoing s ++ data) (calls s))
  | Fresh => (Raise (OSError "ENOTCONN"), s)
  | Closed => (Raise (OSError "EBADF"), s)
  end.

(** [shutdown(SHUT_RDWR)] fails on a socket that is not connected and on a
    closed one. *)
Definition sock_shutdown : SM socket unit := fun s =>
  let s := log CShutdown s in
  match status s with
  | Connected => (Ok tt, s)
  | Fresh => (Raise (OSError "ENOTCONN"), s)
  | Closed => (Raise (OSError "EBADF"), s)
  end.

(** [close()] succeeds in every state. *)
Definition sock_close : SM socket unit := fun s =>
  let s := log CClose s in
  (Ok tt, mkSocket Closed (incoming s) (outgoing s) (calls s)).

(** ** [whatsminer_trans.py]: class [WhatsminerTCP]

    The [print] calls of [_receive_response] write to the standard output
    only and are left out. *)

Record WhatsminerTCP : Type := mkTCP {
  ip : pystr;
  port : Z;
  tcp_account : pystr;
  tcp_password : pystr;
  sock : option socket
}.

Definition WhatsminerTCP_init (ip : pystr) (port : Z) (account password : pystr)
  : WhatsminerTCP :=
  mkTCP ip port account password None.

Definition set_sock (self : WhatsminerTCP) (s : option socket) : WhatsminerTCP :=
  mkTCP (ip self) (port self) (tcp_account self) (tcp_password self) s.

(** [self.sock.op(...)]: the operation runs on the socket [self.sock]
    refers to; on [None] the attribute lookup fails. *)
Definition with_sock {A} (m : SM socket A) : SM WhatsminerTCP A := fun self =>
  match sock self with
  | Some s => let (r, s') := m s in (r, set_sock self (Some s'))
  | None => (Raise AttributeError, self)
  end.

(** [not self.sock]: a socket object is always true, [None] is false. *)
Definition not_sock : SM WhatsminerTCP bool := fun self =>
  match sock self with
  | Some _ => (Ok false, self)
  | None => (Ok true, self)
  end.

(** [connect()]: the socket is created and stored first; [peer] is what
    the network answers, [None] when the connection cannot be made. *)
Definition connect (peer : option (list bytes)) : SM WhatsminerTCP unit :=
  fun self =>
    match peer with
    | Some segments =>
        (Ok tt, set_sock self (Some (mkSocket Connected segments [] [])))
    | None =>
        (Raise (OSError "ECONNREFUSED"),
         set_sock self (Some (mkSocket Fresh [] [] [])))
    end.

Definition close : SM WhatsminerTCP unit :=
  closed <~ not_sock ;;
  if closed then sret tt
  else
    with_sock sock_shutdown ;;;
    with_sock sock_close.

(** The [while len(buffer) < rsp_len] loop.  Every turn that does not
    leave the loop adds at least one byte, so [rsp_len] turns suffice. *)
Fixpoint recv_loop (fuel rsp_len : nat) (buffer : bytes)
  : SM WhatsminerTCP bytes :=
  match fuel with
  | O => sret buffer
  | S fuel' =>
      if (length buffer <? rsp_len)%nat then
        more_data <~ with_sock (sock_recv (rsp_len - length buffer)) ;;
        match more_data with
        | [] => sret buffer
        | _ => recv_loop fuel' rsp_len (buffer ++ more_data)
        end
      else sret buffer
  end.

Definition _receive_response : SM WhatsminerTCP (option pystr) :=
  closed <~ not_sock ;;
  if closed then sret None
  else
    let buffer := [] in
    length_data <~ with_sock (sock_recv 4) ;;
    if (length length_data <? 4)%nat then sret None
    else
      rsp_len <~ lift (struct_unpack_I length_data) ;;
      if (8192 <? rsp_len)%N then sret None
      else
        buffer <~ recv_loop (N.to_nat rsp_len) (N.to_nat rsp_len) buffer ;;
        text <~ lift (decode buffer) ;;
        sret (Some text).

Section Send.

(** [json.loads] is taken as given. *)
Variable json_loads : pystr -> result pyval.

Definition send (message : pystr) (message_length : Z)
  : SM WhatsminerTCP pyval :=
  closed <~ not_sock ;;
  if closed then sraise (RuntimeError "Not connected. Call connect() first.")
  else
    length_bytes <~ lift (struct_pack_I message_length) ;;
    with_sock (sock_sendall length_bytes) ;;;
    payload <~ lift (encode message) ;;
    with_sock (sock_sendall payload) ;;;
    response <~ _receive_response ;;
    match response with
    | None => sraise (RuntimeError "Failed to receive response")
    | Some text => lift (json_loads text)
    end.

End Send.

(** ** [whatsminer_read_sn.py]

    [try: body / except Exception: handler / finally: final]: every
    exception of the model is an [Exception]; [final] runs on every path,
    and an exception it raises replaces the outcome reached so far. *)

Definition try_except_finally {St A} (body : SM St A) (handler : exn -> SM St A)
  (final : SM St unit) : SM St A := fun s =>
  let (r1, s1) := body s in
  let (r2, s2) :=
    match r1 with
    | Ok a => (Ok a, s1)
    | Raise e => handler e s1
    end in
  match final s2 with
  | (Ok _, s3) => (r2, s3)
  | (Raise e, s3) => (Raise e, s3)
  end.

(** [v[k]] for a string key. *)
Definition getitem (v : pyval) (k : pystr) : result pyval :=
  match v with
  | PDict d =>
      match dict_get k d with
      | Some x => Ok x
      | None => Raise KeyError
      end
  | _ => Raise TypeError
  end.

(** [v.get(k, default)] *)
Definition py_get (v : pyval) (k : pystr) (default : pyval) : result pyval :=
  match v with
  | PDict d =>
      match dict_get k d with
      | Some x => Ok x
      | None => Ok default
      end
  | _ => Raise AttributeError
  end.

(** [v != 0] *)
Definition ne_zero (v : pyval) : bool :=
  match v with
  | PInt z => negb (z =? 0)%Z
  | PBool b => b
  | _ => true
  end.

(** [whatsminer_read_sn(worker_ip, port)]: the value returned, or the
    exception that leaves the function.  [peer] is the answer of the
    network to [connect]. *)
Definition whatsminer_read_sn (json_loads : pystr -> result pyval)
  (peer : option (list bytes)) (worker_ip : pystr) (port : Z)
  : result (option pyval) :=
  let account := py "super" in
  let password := py "super" in
  let whatsminer_api := WhatsminerAPIv3_init account password in
  let whatsminer_tcp := WhatsminerTCP_init worker_ip port account password in
  fst (try_except_finally
         (connect peer ;;;
          req_info <~
            lift (get_request_cmds whatsminer_api (py "get.device.info") PNone) ;;
          let req_length := Z.of_nat (length req_info) in
          response <~ send json_loads req_info req_length ;;
          code <~ lift (getitem response (py "code")) ;;
          if ne_zero code then sret None
          else
            msg <~ lift (getitem response (py "msg")) ;;
            salt <~ lift (getitem msg (py "salt")) ;;
            device_info <~ lift (py_get response (py "msg") (PDict [])) ;;
            miner_info <~ lift (py_get device_info (py "miner") (PDict [])) ;;
            miner_sn <~ lift (py_get miner_info (py "miner-sn") PNone) ;;
            pcb_sn_0 <~ lift (py_get miner_info (py "pcbsn0") PNone) ;;
            pcb_sn_1 <~ lift (py_get miner_info (py "pcbsn1") PNone) ;;
            pcb_sn_2 <~ lift (py_get miner_info (py "pcbsn2") PNone) ;;
            pcb_sn_3 <~ lift (py_get miner_info (py "pcbsn3") PNone) ;;
            sret (Some (PDict [(py "ip", PStr worker_ip);
                               (py "miner_sn", miner_sn);
                               (py "pcb_sn_0", pcb_sn_0);
                               (py "pcb_sn_1", pcb_sn_1);
                               (py "pcb_sn_2", pcb_sn_2);
                               (py "pcb_sn_3", pcb_sn_3)])))
         (fun error => sret None)
         close
         whatsminer_tcp).

(** ** The protocol as described

    Definitions that follow the wording of the protocol description, to
    be compared with the code above. *)

Module Spec.

(** The base64 text of a byte string, as characters. *)
Definition b64text (b : bytes) : pystr := map bn (b64encode b).

(** SHA-256 over the UTF-8 forms, in this order, of the command, the
    password, the salt and the decimal form of [ts]. *)
Definition deriveKeyMaterial (cmd password salt : pystr) (ts : Z)
  : result bytes :=
  c <- encode cmd ;;
  p <- encode password ;;
  s <- encode salt ;;
  t <- encode (str_of_int ts) ;;
  Ok (SHA256.digest (c ++ p ++ s ++ t)).

(** The first 8 characters of the base64 text of the key material. *)
Definition deriveToken (cmd password salt : pystr) (ts : Z) : result pystr :=
  key <- deriveKeyMaterial cmd password salt ts ;;
  Ok (firstn 8 (b64text key)).

(** [p = 16 - (L mod 16)] and the padding of raw bytes with [p] bytes of
    value [p]. *)
Definition pad_len (L : nat) : nat := 16 - L mod 16.

Definition pad (plaintext : bytes) : bytes :=
  let p := pad_len (length plaintext) in
  plaintext ++ repeat (nb (N.of_nat p)) p.

(** Strips as many bytes as the value of the last byte says. *)
Definition unpad (padded : bytes) : bytes :=
  firstn (length padded - N.to_nat (bn (last padded x00))) padded.

(** The key material used directly as the key of the block cipher in
    codebook mode over the padded plaintext, then base64. *)
Definition encryptParam (plaintext cmd password salt : pystr) (ts : Z)
  : result pystr :=
  key <- deriveKeyMaterial cmd password salt ts ;;
  cipher <- AES.new key ;;
  raw <- encode plaintext ;;
  ciphertext <- AES.encrypt cipher (pad raw) ;;
  Ok (b64text ciphertext).

(** A peer reading one frame from the bytes written to it: four bytes
    of little-endian length [n], then exactly [n] bytes. *)
Definition read_frame (wire : bytes) : option (N * bytes) :=
  match struct_unpack_I (firstn 4 wire) with
  | Ok n =>
      let body := firstn (N.to_nat n) (skipn 4 wire) in
      if (length body =? N.to_nat n)%nat then Some (n, body) else None
  | Raise _ => None
  end.

End Spec.

(** The transport of the demonstration script, and a [json.loads] that
    keeps the text as it is, for examples. *)
Definition demo_tcp : WhatsminerTCP :=
  WhatsminerTCP_init (py "192.168.2.128") 4433 (py "super") (py "super").

Definition keep_text (text : pystr) : result pyval := Ok (PStr text).

(** ** Predicates of the statements *)

(** A string made of ASCII characters only. *)
Definition is_ascii (s : pystr) : Prop := Forall (fun c => (c < 128)%N) s.

Definition is_asciib (s : pystr) : bool := forallb (fun c => (c <? 128)%N) s.

(** The characters base64 text is made of. *)
Definition is_b64_char (c : N) : bool :=
  ((65 <=? c) && (c <=? 90) || (97 <=? c) && (c <=? 122)
   || (48 <=? c) && (c <=? 57) || (c =? 43) || (c =? 47) || (c =? 61))%N.


(** Relations between the state before and after an operation. *)
Definition keeps (R : WhatsminerTCP -> WhatsminerTCP -> Prop) {A}
  (m : SM WhatsminerTCP A) : Prop :=
  forall self, R self (snd (m self)).

Definition same_outgoing (a b : WhatsminerTCP) : Prop :=
  option_map outgoing (sock b) = option_map outgoing (sock a)
  /\ option_map status (sock b) = option_map status (sock a).

(** ** Further predicates and examples *)

(** What an operation that only reads may change: the socket is the same
    one, in the same status, with the same bytes written, and its log has
    grown by [recv] calls only. *)
Definition only_recv (a b : WhatsminerTCP) : Prop :=
  match sock a, sock b with
  | Some s, Some s' =>
      status s' = status s /\ outgoing s' = outgoing s
      /\ exists sizes, calls s' = calls s ++ map CRecv sizes
  | None, None => True
  | _, _ => False
  end.


(** The characters a token is made of: letters, digits, [+] and [/]. *)
Definition is_token_char (c : N) : bool :=
  ((65 <=? c) && (c <=? 90) || (97 <=? c) && (c <=? 122)
   || (48 <=? c) && (c <=? 57) || (c =? 43) || (c =? 47))%N.

(** A text some builder of the codec returns, at clock reading [now]. *)
Definition codec_text (self : WhatsminerAPIv3) (now : Z) (text : pystr) : Prop :=
  (exists cmd param, get_request_cmds self cmd param = Ok text)
  \/ (exists cmd param, set_request_cmds self now cmd param = Ok text)
  \/ (exists u1 w1 p1 u2 w2 p2 u3 w3 p3,
         set_miner_pools self now u1 w1 p1 u2 w2 p2 u3 w3 p3 = Ok text)
  \/ (exists username old_passwd new_passwd,
         set_user_passwd self now username old_passwd new_passwd = Ok text).


(** The text of an authenticated envelope with an encrypted parameter:
    members [cmd], [ts], [token], [account], [param], in this order. *)
Definition encrypted_envelope_text (cmd : pystr) (ts : Z)
  (token account encrypted : pystr) : pystr :=
  py "{" ++ quoted (py "cmd") ++ py ": " ++ encode_basestring_ascii cmd
    ++ py ", " ++ quoted (py "ts") ++ py ": " ++ str_of_int ts
    ++ py ", " ++ quoted (py "token") ++ py ": " ++ quoted token
    ++ py ", " ++ quoted (py "account") ++ py ": "
    ++ encode_basestring_ascii account
    ++ py ", " ++ quoted (py "param") ++ py ": " ++ quoted encrypted ++ py "}".





(** * Properties *)

(** ** Known answers

    The models of the library functions on published test vectors, and
    the worked example of the protocol description. *)

Example sha256_abc :
  hex_of_bytes (SHA256.digest (map nb (py "abc")))
  = py "ba7816bf8f01cfea414140de5dae2223b00361a396177a9cb410ff61f20015ad".
Proof. vm_compute. reflexivity. Qed.

Example sha256_two_blocks :
  hex_of_bytes
    (SHA256.digest
       (map nb (py "abcdbcdecdefdefgefghfghighijhijkijkljklmklmnlmnomnopnopq")))
  = py "248d6a61d20638b8e5c026930c3e6039a33ce45964ff2167f6ecedd419db06c1".
Proof. vm_compute. reflexivity. Qed.

Example aes_fips197_vectors :
  let key n := map (fun i => nb (N.of_nat i)) (seq 0 n) in
  let block := map (fun i => nb (N.of_nat (17 * i))) (seq 0 16) in
  let run n := c <- AES.new (key n) ;; ct <- AES.encrypt c block ;;
               Ok (hex_of_bytes ct) in
  run 16%nat = Ok (py "69c4e0d86a7b0430d8cdb78070b4c55a")
  /\ run 24%nat = Ok (py "dda97ca4864cdfe06eaf70a0ec0d7191")
  /\ run 32%nat = Ok (py "8ea2b7ca516745bfeafc49904b496089").
Proof. vm_compute. repeat split. Qed.

Example aes_fips197_inverse :
  let key := map (fun i => nb (N.of_nat i)) (seq 0 32) in
  let block := map (fun i => nb (N.of_nat (17 * i))) (seq 0 16) in
  (c <- AES.new key ;; ct <- AES.encrypt c block ;; AES.decrypt c ct)
  = Ok block.
Proof. vm_compute. reflexivity. Qed.

Example b64encode_rfc4648 :
  Spec.b64text (map nb (py "foobar")) = py "Zm9vYmFy"
  /\ Spec.b64text (map nb (py "fooba")) = py "Zm9vYmE="
  /\ Spec.b64text (map nb (py "foob")) = py "Zm9vYg==".
Proof. vm_compute. repeat split. Qed.

Example utf8_examples :
  encode [233; 8364; 128512]%N
  = Ok (map nb [195; 169; 226; 130; 172; 240; 159; 152; 128]%N)
  /\ decode (map nb [195; 169; 226; 130; 172; 240; 159; 152; 128]%N)
     = Ok [233; 8364; 128512]%N
  /\ encode [55296%N] = Raise UnicodeEncodeError
  /\ decode (map nb [192; 128]%N) = Raise UnicodeDecodeError.
Proof. vm_compute. repeat split. Qed.

(** The restart command of the worked example, at [ts = 1700000000]. *)
Example demo_token :
  _generate_token demo_api (py "set.miner.service") demo_ts = Ok (py "07k4sZ5A").
Proof. vm_compute. reflexivity. Qed.

Example demo_envelope :
  set_miner_service demo_api demo_ts (py "restart")
  = Ok (py "{" ++ quoted (py "cmd") ++ py ": " ++ quoted (py "set.miner.service")
          ++ py ", " ++ quoted (py "param") ++ py ": " ++ quoted (py "restart")
          ++ py ", " ++ quoted (py "ts") ++ py ": 1700000000, "
          ++ quoted (py "token") ++ py ": " ++ quoted (py "07k4sZ5A")
          ++ py ", " ++ quoted (py "account") ++ py ": " ++ quoted (py "super")
          ++ py "}").
Proof. vm_compute. reflexivity. Qed.

Example demo_device_info_request :
  get_request_cmds demo_api (py "get.device.info") PNone
  = Ok (py "{" ++ quoted (py "cmd") ++ py ": " ++ quoted (py "get.device.info")
          ++ py ", " ++ quoted (py "param") ++ py ": null}").
Proof. vm_compute. reflexivity. Qed.

(** ** Bytes and characters *)

Lemma bn_lt (b : byte) : (bn b < 256)%N.
Proof.
  unfold bn. pose proof (Byte.to_N_bounded b). lia.
Qed.

Lemma bn_nb (n : N) : (n < 256)%N -> bn (nb n) = n.
Proof.
  intros H. unfold bn, nb. rewrite N.mod_small by exact H.
  destruct (Byte.of_N n) eqn:E.
  - apply Byte.to_of_N. exact E.
  - apply Byte.of_N_None_iff in E. lia.
Qed.

Lemma nb_bn (b : byte) : nb (bn b) = b.
Proof.
  unfold nb, bn. rewrite N.mod_small by apply bn_lt.
  now rewrite Byte.of_to_N.
Qed.

Lemma bn_inj (a b : byte) : bn a = bn b -> a = b.
Proof.
  intros H. rewrite <- (nb_bn a), <- (nb_bn b). now rewrite H.
Qed.

Lemma is_asciib_spec (s : pystr) : is_asciib s = true <-> is_ascii s.
Proof.
  unfold is_asciib, is_ascii. rewrite forallb_forall, Forall_forall.
  split; intros H c Hc; specialize (H c Hc); now apply N.ltb_lt.
Qed.

Lemma is_ascii_app (s t : pystr) : is_ascii s -> is_ascii t -> is_ascii (s ++ t).
Proof. intros; now apply Forall_app. Qed.

Lemma utf8_encode_opt_app (s t : pystr) :
  utf8_encode_opt (s ++ t) =
    match utf8_encode_opt s, utf8_encode_opt t with
    | Some a, Some b => Some (a ++ b)
    | _, _ => None
    end.
Proof.
  induction s as [|c s IH]; simpl.
  - now destruct (utf8_encode_opt t).
  - rewrite IH. destruct (utf8_encode_cp c); [|reflexivity].
    destruct (utf8_encode_opt s); [|reflexivity].
    destruct (utf8_encode_opt t); [|reflexivity].
    now rewrite app_assoc.
Qed.

Lemma encode_app (s t : pystr) :
  encode (s ++ t) = (a <- encode s ;; b <- encode t ;; Ok (a ++ b)).
Proof.
  unfold encode. rewrite utf8_encode_opt_app.
  destruct (utf8_encode_opt s); simpl; [|reflexivity].
  now destruct (utf8_encode_opt t).
Qed.

Lemma utf8_encode_opt_ascii (s : pystr) :
  is_ascii s -> utf8_encode_opt s = Some (map nb s).
Proof.
  induction 1 as [|c s Hc _ IH]; simpl; [reflexivity|].
  rewrite IH. unfold utf8_encode_cp.
  apply N.ltb_lt in Hc. now rewrite Hc.
Qed.

Lemma encode_ascii (s : pystr) : is_ascii s -> encode s = Ok (map nb s).
Proof.
  intros H. unfold encode. now rewrite utf8_encode_opt_ascii.
Qed.

Lemma utf8_decode_opt_ascii (b : bytes) (fuel : nat) :
  Forall (fun x => (bn x < 128)%N) b -> (length b <= fuel)%nat ->
  utf8_decode_opt fuel b = Some (map bn b).
Proof.
  revert b. induction fuel as [|fuel IH]; intros b Hb Hl.
  - destruct b; [reflexivity | simpl in Hl; lia].
  - destruct b as [|x b]; [reflexivity|].
    inversion Hb as [|? ? Hx Hb']; subst. simpl in Hl.
    cbn [utf8_decode_opt]. apply N.ltb_lt in Hx. rewrite Hx.
    rewrite IH by (auto; lia). reflexivity.
Qed.

Lemma decode_ascii (b : bytes) :
  Forall (fun x => (bn x < 128)%N) b -> decode b = Ok (map bn b).
Proof.
  intros H. unfold decode. now rewrite utf8_decode_opt_ascii.
Qed.

(** ** Base64 *)

Lemma list_ind3 {A} (P : list A -> Prop) :
  P [] -> (forall a, P [a]) -> (forall a b, P [a; b]) ->
  (forall a b c l, P l -> P (a :: b :: c :: l)) ->
  forall l, P l.
Proof.
  intros H0 H1 H2 H3.
  fix IH 1.
  intros [|a [|b [|c l]]];
    [exact H0 | apply H1 | apply H2 | apply H3; apply IH].
Qed.

Lemma b64_char_in_alphabet (i : N) : is_b64_char (bn (b64_char i)) = true.
Proof.
  assert (H : forallb (fun k => is_b64_char (bn (b64_char (N.of_nat k))))
                (seq 0 64) = true) by (vm_compute; reflexivity).
  rewrite forallb_forall in H.
  assert (E : b64_char i = b64_char (N.of_nat (N.to_nat (i mod 64)))).
  { unfold b64_char. rewrite N2Nat.id.
    now rewrite N.Div0.mod_mod. }
  assert (Hlt : (N.to_nat (i mod 64) < 64)%nat).
  { assert (Hm : (i mod 64 < 64)%N) by (apply N.mod_upper_bound; discriminate).
    lia. }
  rewrite E. apply H. apply in_seq. split; [apply Nat.le_0_l | exact Hlt].
Qed.

Lemma is_b64_char_ascii (c : N) : is_b64_char c = true -> (c < 128)%N.
Proof.
  unfold is_b64_char. intros H.
  repeat (apply orb_prop in H; destruct H as [H|H]);
    try (apply andb_prop in H; destruct H as [H1 H2]);
    repeat match goal with
           | H : (_ <=? _)%N = true |- _ => apply N.leb_le in H
           | H : (_ =? _)%N = true |- _ => apply N.eqb_eq in H
           end; lia.
Qed.

Lemma b64encode_alphabet (bs : bytes) :
  Forall (fun x => is_b64_char (bn x) = true) (b64encode bs).
Proof.
  induction bs as [|a|a b|a b c l IH] using list_ind3.
  - constructor.
  - cbn [b64encode]. repeat constructor; try apply b64_char_in_alphabet.
  - cbn [b64encode]. repeat constructor; try apply b64_char_in_alphabet.
  - cbn [b64encode]. repeat (constructor; [apply b64_char_in_alphabet|]).
    exact IH.
Qed.

Lemma b64encode_length (bs : bytes) :
  length (b64encode bs) = (4 * ((length bs + 2) / 3))%nat.
Proof.
  induction bs as [|a|a b|a b c l IH] using list_ind3; try reflexivity.
  cbn [b64encode length]. rewrite IH.
  replace (S (S (S (length l))) + 2)%nat with (1 * 3 + (length l + 2))%nat by lia.
  rewrite Nat.div_add_l by lia. lia.
Qed.

(** Decoding base64 output as UTF-8 gives its characters. *)
Lemma decode_b64encode (bs : bytes) :
  decode (b64encode bs) = Ok (Spec.b64text bs).
Proof.
  apply decode_ascii.
  eapply Forall_impl; [|apply b64encode_alphabet].
  intros x Hx. now apply is_b64_char_ascii.
Qed.

Lemma b64text_length (bs : bytes) :
  length (Spec.b64text bs) = (4 * ((length bs + 2) / 3))%nat.
Proof.
  unfold Spec.b64text. rewrite length_map. apply b64encode_length.
Qed.

Lemma b64text_alphabet (bs : bytes) :
  Forall (fun c => is_b64_char c = true) (Spec.b64text bs).
Proof.
  unfold Spec.b64text. apply Forall_map. apply b64encode_alphabet.
Qed.

(** ** SHA-256 *)

Lemma sha256_digest_length (msg : bytes) : length (SHA256.digest msg) = 32%nat.
Proof. reflexivity. Qed.

(** ** Key material and token *)

(** What both [_generate_token] and [_encrypt_param] compute first. *)
Lemma src_buff_key (self : WhatsminerAPIv3) (command : pystr) (ts : Z) :
  (src_bytes <-
     encode (command ++ password self ++ salt self ++ str_of_int ts) ;;
   Ok (SHA256.digest src_bytes))
  = Spec.deriveKeyMaterial command (password self) (salt self) ts.
Proof.
  unfold Spec.deriveKeyMaterial. rewrite !encode_app.
  destruct (encode command); simpl; [|reflexivity].
  destruct (encode (password self)); simpl; [|reflexivity].
  destruct (encode (salt self)); simpl; [|reflexivity].
  destruct (encode (str_of_int ts)); simpl; reflexivity.
Qed.

Lemma generate_token_key (self : WhatsminerAPIv3) (command : pystr) (ts : Z) :
  _generate_token self command ts =
    (key <- Spec.deriveKeyMaterial command (password self) (salt self) ts ;;
     Ok (firstn 8 (Spec.b64text key))).
Proof.
  rewrite <- src_buff_key. unfold _generate_token.
  destruct (encode _) as [src_bytes|e]; cbn [bind]; [|reflexivity].
  now rewrite decode_b64encode.
Qed.

Lemma encrypt_param_key (self : WhatsminerAPIv3) (param command : pystr)
  (ts : Z) :
  _encrypt_param self param command ts =
    (key <- Spec.deriveKeyMaterial command (password self) (salt self) ts ;;
     cipher <- AES.new key ;;
     padded_bytes <-
       encode (param ++ str_mul (chr (16 - length param mod 16))
                                (16 - length param mod 16)) ;;
     encrypted_bytes <- AES.encrypt cipher padded_bytes ;;
     Ok (Spec.b64text encrypted_bytes)).
Proof.
  rewrite <- src_buff_key. unfold _encrypt_param.
  destruct (encode _) as [src_bytes|e]; cbn [bind]; [|reflexivity].
  destruct (AES.new _) as [cipher|e]; cbn [bind]; [|reflexivity].
  destruct (encode _) as [padded|e]; cbn [bind]; [|reflexivity].
  destruct (AES.encrypt _ _) as [ct|e]; cbn [bind]; [|reflexivity].
  apply decode_b64encode.
Qed.

Lemma deriveKeyMaterial_cases (cmd password salt : pystr) (ts : Z) :
  match Spec.deriveKeyMaterial cmd password salt ts with
  | Ok key => length key = 32%nat
  | Raise e => e = UnicodeEncodeError
  end.
Proof.
  unfold Spec.deriveKeyMaterial, encode.
  destruct (utf8_encode_opt cmd); cbn [bind]; [|reflexivity].
  destruct (utf8_encode_opt password); cbn [bind]; [|reflexivity].
  destruct (utf8_encode_opt salt); cbn [bind]; [|reflexivity].
  destruct (utf8_encode_opt (str_of_int ts)); cbn [bind]; reflexivity.
Qed.

Lemma aes_new_256 (key : bytes) :
  length key = 32%nat ->
  AES.new key = Ok (AES.mkCipher (AES.key_expansion key) 14).
Proof.
  intros H. unfold AES.new. rewrite H. reflexivity.
Qed.

(** C1.  For every command, password, salt and timestamp, the token of
    an authenticated command is the first 8 characters of the base64 text
    of the SHA-256 digest of the UTF-8 forms of the command, the password,
    the salt and the decimal timestamp, concatenated in this order; a
    token that is produced has 8 characters, and none is produced only
    when one of the strings has no UTF-8 form. *)
Theorem generate_token_is_b64_prefix_of_digest
  (self : WhatsminerAPIv3) (cmd : pystr) (ts : Z) :
  _generate_token self cmd ts
    = Spec.deriveToken cmd (password self) (salt self) ts
  /\ match _generate_token self cmd ts with
     | Ok token => length token = 8%nat
     | Raise e => e = UnicodeEncodeError
     end.
Proof.
  rewrite generate_token_key. split; [reflexivity|].
  pose proof (deriveKeyMaterial_cases cmd (password self) (salt self) ts) as H.
  destruct (Spec.deriveKeyMaterial _ _ _ _) as [key|e]; cbn [bind]; [|exact H].
  rewrite firstn_length_le; [reflexivity|].
  rewrite b64text_length, H. cbv. lia.
Qed.

(** C8.  For the same command, timestamp, password and salt, the key
    under which [_encrypt_param] encrypts is the SHA-256 digest from which
    [_generate_token] takes the token: both start from the same key
    material, which has 32 bytes and is accepted as an AES-256 key. *)
Theorem encryption_key_is_token_digest
  (self : WhatsminerAPIv3) (param cmd : pystr) (ts : Z) :
  let material := Spec.deriveKeyMaterial cmd (password self) (salt self) ts in
  _generate_token self cmd ts
    = (key <- material ;; Ok (firstn 8 (Spec.b64text key)))
  /\ _encrypt_param self param cmd ts
    = (key <- material ;;
       cipher <- AES.new key ;;
       padded_bytes <-
         encode (param ++ str_mul (chr (16 - length param mod 16))
                                  (16 - length param mod 16)) ;;
       encrypted_bytes <- AES.encrypt cipher padded_bytes ;;
       Ok (Spec.b64text encrypted_bytes))
  /\ match material with
     | Ok key =>
         length key = 32%nat
         /\ AES.new key = Ok (AES.mkCipher (AES.key_expansion key) 14)
     | Raise e => e = UnicodeEncodeError
     end.
Proof.
  intros material. split; [apply generate_token_key|].
  split; [apply encrypt_param_key|].
  pose proof (deriveKeyMaterial_cases cmd (password self) (salt self) ts) as H.
  fold material in H. destruct material as [key|e]; [|exact H].
  split; [exact H | now apply aes_new_256].
Qed.

(** ** Lists *)

Lemma Forall_take {A} (P : A -> Prop) (n : nat) (l : list A) :
  Forall P l -> Forall P (firstn n l).
Proof.
  intros H. rewrite <- (firstn_skipn n l) in H.
  now apply Forall_app in H.
Qed.

Lemma Forall_drop {A} (P : A -> Prop) (n : nat) (l : list A) :
  Forall P l -> Forall P (skipn n l).
Proof.
  intros H. rewrite <- (firstn_skipn n l) in H.
  now apply Forall_app in H.
Qed.

Lemma firstn_app_length {A} (l1 l2 : list A) (n : nat) :
  length l1 = n -> firstn n (l1 ++ l2) = l1.
Proof.
  intros <-. rewrite firstn_app, Nat.sub_diag, firstn_all. apply app_nil_r.
Qed.

Lemma skipn_app_length {A} (l1 l2 : list A) (n : nat) :
  length l1 = n -> skipn n (l1 ++ l2) = l2.
Proof.
  intros <-. now rewrite skipn_app, Nat.sub_diag, skipn_all.
Qed.

(** ** AES: shape of the key schedule and of the ciphertext *)

Module AESFacts.

Import AES.

Lemma xor_bytes_length (a b : bytes) :
  length (xor_bytes a b) = Nat.min (length a) (length b).
Proof.
  unfold xor_bytes. now rewrite length_map, length_combine.
Qed.

Lemma rot_word_length (w : word) : length (rot_word w) = length w.
Proof.
  destruct w as [|a r]; [reflexivity|].
  simpl. rewrite length_app. simpl. lia.
Qed.

Lemma sub_word_length (w : word) : length (sub_word w) = length w.
Proof. apply length_map. Qed.

Lemma nth_word4 (w : list word) (i : nat) :
  Forall word4 w -> (i < length w)%nat -> word4 (nth i w []).
Proof.
  intros H Hi. rewrite Forall_forall in H. apply H. now apply nth_In.
Qed.

Lemma words_of_key_shape (k : nat) (key : bytes) :
  length key = (4 * k)%nat ->
  length (words_of_key key) = k /\ Forall word4 (words_of_key key).
Proof.
  revert key. induction k as [|k IH]; intros key H.
  - destruct key; [|discriminate]. split; [reflexivity | constructor].
  - destruct key as [|a [|b [|c [|d rest]]]]; simpl in H; try lia.
    destruct (IH rest) as [Hl Hw]; [lia|].
    cbn [words_of_key]. split; [simpl; now rewrite Hl|].
    constructor; [reflexivity | exact Hw].
Qed.

Lemma expand_shape (count Nk i : nat) (w : list word) :
  (0 < Nk <= i)%nat -> length w = i -> Forall word4 w ->
  length (expand count Nk i w) = (i + count)%nat
  /\ Forall word4 (expand count Nk i w).
Proof.
  revert i w. induction count as [|count IH]; intros i w Hi Hl Hw.
  - simpl. split; [lia | exact Hw].
  - cbn [expand].
    assert (Hprev : word4 (nth (i - 1) w [])) by (apply nth_word4; [auto | lia]).
    assert (Hold : word4 (nth (i - Nk) w [])) by (apply nth_word4; [auto | lia]).
    unfold word4 in Hprev, Hold.
    match goal with
    | |- context [expand count Nk (S i) (w ++ [?x])] =>
        assert (Hx : word4 x)
    end.
    { unfold word4. rewrite xor_bytes_length, Hold.
      destruct (i mod Nk =? 0)%nat.
      - rewrite xor_bytes_length, sub_word_length, rot_word_length, Hprev.
        reflexivity.
      - destruct ((6 <? Nk) && (i mod Nk =? 4))%nat.
        + now rewrite sub_word_length, Hprev.
        + now rewrite Hprev. }
    destruct (IH (S i) (w ++ [xor_bytes (nth (i - Nk) w [])
        (if (i mod Nk =? 0)%nat
         then xor_bytes (sub_word (rot_word (nth (i - 1) w [])))
                [rcon (i / Nk); x00; x00; x00]
         else if ((6 <? Nk) && (i mod Nk =? 4))%nat
              then sub_word (nth (i - 1) w [])
              else nth (i - 1) w [])])) as [H1 H2].
    + lia.
    + rewrite length_app. simpl. lia.
    + apply Forall_app. split; [exact Hw | constructor; [exact Hx | constructor]].
    + split; [lia | exact H2].
Qed.

Lemma key_expansion_shape (key : bytes) (k : nat) :
  (0 < k)%nat -> length key = (4 * k)%nat ->
  schedule_ok (key_expansion key) (k + 6).
Proof.
  intros Hk H. unfold key_expansion, schedule_ok.
  assert (E : (length key / 4 = k)%nat).
  { rewrite H, Nat.mul_comm. now apply Nat.div_mul. }
  rewrite E. destruct (words_of_key_shape k key H) as [Hl Hw].
  destruct (expand_shape (4 * (k + 7) - k) k k (words_of_key key))
    as [H1 H2]; [lia | exact Hl | exact Hw |].
  split; [lia | exact H2].
Qed.

(** Every cipher object [AES.new] returns has a well-shaped schedule. *)
Lemma new_schedule_ok (key : bytes) (c : cipher) :
  new key = Ok c -> schedule_ok (round_keys c) (Nr c).
Proof.
  unfold new. intros H.
  destruct ((length key =? 16) || (length key =? 24) || (length key =? 32))%nat
    eqn:E; [|discriminate].
  injection H as <-. cbn [round_keys Nr].
  apply orb_prop in E. destruct E as [E|E];
    [apply orb_prop in E; destruct E as [E|E]|];
    apply Nat.eqb_eq in E; rewrite E.
  - apply (key_expansion_shape key 4); [lia | exact E].
  - apply (key_expansion_shape key 6); [lia | exact E].
  - apply (key_expansion_shape key 8); [lia | exact E].
Qed.

Lemma round_key_length (w : list word) (Nr r : nat) :
  schedule_ok w Nr -> (r <= Nr)%nat -> length (round_key w r) = 16%nat.
Proof.
  intros [Hl Hw] Hr. unfold round_key.
  assert (H4 : length (firstn 4 (skipn (4 * r) w)) = 4%nat).
  { rewrite length_firstn, length_skipn. lia. }
  assert (Hf : Forall word4 (firstn 4 (skipn (4 * r) w))).
  { apply Forall_take. now apply Forall_drop. }
  destruct (firstn 4 (skipn (4 * r) w)) as [|a [|b [|c [|d [|e l]]]]];
    try discriminate.
  inversion Hf as [|? ? Ha Hf1]; subst.
  inversion Hf1 as [|? ? Hb Hf2]; subst.
  inversion Hf2 as [|? ? Hc Hf3]; subst.
  inversion Hf3 as [|? ? Hd _]; subst.
  unfold word4 in *. simpl. rewrite !length_app, Ha, Hb, Hc, Hd. reflexivity.
Qed.

Lemma add_round_key_length (w : list word) (Nr r : nat) (s : bytes) :
  schedule_ok w Nr -> (r <= Nr)%nat -> length s = 16%nat ->
  length (add_round_key w r s) = 16%nat.
Proof.
  intros Hw Hr Hs. unfold add_round_key.
  rewrite xor_bytes_length, Hs, (round_key_length w Nr r Hw Hr). reflexivity.
Qed.

Lemma sub_bytes_length (s : bytes) : length (sub_bytes s) = length s.
Proof. apply length_map. Qed.

Ltac list16 s H :=
  do 16 (destruct s as [|? s]; [discriminate H|]);
  destruct s; [|discriminate H].

Lemma shift_rows_length (s : bytes) :
  length s = 16%nat -> length (shift_rows s) = 16%nat.
Proof. intros H. list16 s H. reflexivity. Qed.

Lemma mix_columns_length (s : bytes) :
  length s = 16%nat -> length (mix_columns s) = 16%nat.
Proof. intros H. list16 s H. reflexivity. Qed.

Lemma middle_rounds_length (w : list word) (Nr count r : nat) (s : bytes) :
  schedule_ok w Nr -> (r + count <= Nr + 1)%nat -> length s = 16%nat ->
  length (middle_rounds w count r s) = 16%nat.
Proof.
  intros Hw. revert r s. induction count as [|count IH]; intros r s Hr Hs.
  - exact Hs.
  - cbn [middle_rounds]. apply IH; [lia|].
    apply (add_round_key_length w Nr r _ Hw); [lia|].
    apply mix_columns_length, shift_rows_length.
    now rewrite sub_bytes_length.
Qed.

Lemma encrypt_block_length (w : list word) (Nr : nat) (block : bytes) :
  schedule_ok w Nr -> length block = 16%nat ->
  length (encrypt_block w Nr block) = 16%nat.
Proof.
  intros Hw Hb. unfold encrypt_block.
  apply (add_round_key_length w Nr Nr _ Hw); [lia|].
  apply shift_rows_length. rewrite sub_bytes_length.
  destruct Nr as [|n].
  - simpl. apply (add_round_key_length w 0 0 _ Hw); [lia | exact Hb].
  - apply (middle_rounds_length w (S n)); [exact Hw | lia |].
    apply (add_round_key_length w (S n) 0 _ Hw); [lia | exact Hb].
Qed.

Lemma ecb_blocks_length (c : cipher) (fuel k : nat) (data : bytes) :
  schedule_ok (round_keys c) (Nr c) ->
  length data = (16 * k)%nat -> (k <= fuel)%nat ->
  length (ecb_blocks c fuel data) = length data.
Proof.
  intros Hc. revert k data. induction fuel as [|fuel IH]; intros k data Hl Hk.
  - assert (k = 0)%nat by lia. subst k. now destruct data.
  - destruct data as [|x data']; [reflexivity|].
    destruct k as [|k]; [discriminate|].
    cbn [ecb_blocks]. remember (x :: data') as data.
    rewrite length_app, (IH k).
    + rewrite encrypt_block_length; [|exact Hc|].
      * rewrite length_skipn. lia.
      * rewrite length_firstn. lia.
    + rewrite length_skipn. lia.
    + lia.
Qed.

(** The ciphertext of block-aligned data has the length of the data. *)
Lemma encrypt_length (key : bytes) (c : cipher) (data : bytes) (k : nat) :
  new key = Ok c -> length data = (16 * k)%nat ->
  exists ct, encrypt c data = Ok ct /\ length ct = length data.
Proof.
  intros Hn Hl. unfold encrypt.
  assert (E : (length data mod 16 = 0)%nat).
  { rewrite Hl, Nat.mul_comm. apply Nat.Div0.mod_mul. }
  rewrite E. cbn [Nat.eqb]. eexists. split; [reflexivity|].
  apply (ecb_blocks_length c (length data) k);
    [now apply (new_schedule_ok key) | exact Hl | lia].
Qed.

(** Data that is not block-aligned is refused. *)
Lemma encrypt_unaligned (c : cipher) (data : bytes) :
  (length data mod 16 <> 0)%nat ->
  encrypt c data =
    Raise (ValueError "Data must be aligned to block boundary in ECB mode").
Proof.
  intros H. unfold encrypt. apply Nat.eqb_neq in H. now rewrite H.
Qed.

End AESFacts.

(** ** Padding *)

Lemma pad_len_range (L : nat) : (1 <= Spec.pad_len L <= 16)%nat.
Proof.
  unfold Spec.pad_len. pose proof (Nat.mod_upper_bound L 16). lia.
Qed.

Lemma pad_len_aligned (L : nat) : exists k, (L + Spec.pad_len L = 16 * k)%nat.
Proof.
  unfold Spec.pad_len. exists (S (L / 16)).
  pose proof (Nat.div_mod_eq L 16). pose proof (Nat.mod_upper_bound L 16). lia.
Qed.

Lemma pad_length (b : bytes) :
  length (Spec.pad b) = (length b + Spec.pad_len (length b))%nat.
Proof.
  unfold Spec.pad. now rewrite length_app, repeat_length.
Qed.

Lemma last_app_repeat {A} (l : list A) (x d : A) (n : nat) :
  (0 < n)%nat -> last (l ++ repeat x n) d = x.
Proof.
  intros Hn. destruct n as [|n]; [lia|].
  replace (repeat x (S n)) with (repeat x n ++ [x]).
  - rewrite app_assoc. apply last_last.
  - change [x] with (repeat x 1). rewrite <- repeat_app. f_equal. lia.
Qed.

(** Stripping what the last byte announces undoes the padding. *)
Lemma unpad_pad (b : bytes) : Spec.unpad (Spec.pad b) = b.
Proof.
  pose proof (pad_len_range (length b)) as Hp.
  unfold Spec.unpad. rewrite pad_length. unfold Spec.pad.
  rewrite last_app_repeat by lia.
  rewrite bn_nb by lia. rewrite Nat2N.id.
  replace (length b + Spec.pad_len (length b) - Spec.pad_len (length b))%nat
    with (length b + 0)%nat by lia.
  rewrite firstn_app_2. simpl. apply app_nil_r.
Qed.

Lemma str_mul_chr (c n : nat) : str_mul (chr c) n = repeat (N.of_nat c) n.
Proof.
  induction n as [|n IH]; [reflexivity|]. simpl. now rewrite IH.
Qed.

(** On an ASCII parameter the padded string of [_encrypt_param] encodes to
    the padded bytes of the description. *)
Lemma padded_param_ascii (param : pystr) :
  is_ascii param ->
  encode (param ++ str_mul (chr (16 - length param mod 16))
                           (16 - length param mod 16))
    = Ok (Spec.pad (map nb param))
  /\ encode param = Ok (map nb param).
Proof.
  intros Ha. split; [|now apply encode_ascii].
  pose proof (pad_len_range (length param)) as Hp. unfold Spec.pad_len in Hp.
  rewrite str_mul_chr, encode_ascii.
  - unfold Spec.pad, Spec.pad_len.
    rewrite map_app, length_map, map_repeat. reflexivity.
  - apply is_ascii_app; [exact Ha|].
    apply Forall_forall. intros c Hc. apply repeat_spec in Hc. subst c. lia.
Qed.

Lemma encrypt_param_ascii (self : WhatsminerAPIv3) (param cmd : pystr) (ts : Z) :
  is_ascii param ->
  _encrypt_param self param cmd ts
    = Spec.encryptParam param cmd (password self) (salt self) ts.
Proof.
  intros Ha. rewrite encrypt_param_key. unfold Spec.encryptParam.
  destruct (padded_param_ascii param Ha) as [E1 E2]. rewrite E1, E2.
  destruct (Spec.deriveKeyMaterial _ _ _ _) as [key|e]; cbn [bind]; [|reflexivity].
  destruct (AES.new key) as [cipher|e]; cbn [bind]; reflexivity.
Qed.

(** With key material at hand an ASCII parameter is always encrypted, to
    a ciphertext as long as the padded parameter. *)
Lemma encrypt_param_ascii_ok (self : WhatsminerAPIv3) (param cmd : pystr)
  (ts : Z) (key : bytes) :
  is_ascii param ->
  Spec.deriveKeyMaterial cmd (password self) (salt self) ts = Ok key ->
  exists cipher ct,
    AES.new key = Ok cipher
    /\ AES.encrypt cipher (Spec.pad (map nb param)) = Ok ct
    /\ length ct = (length param + Spec.pad_len (length param))%nat
    /\ _encrypt_param self param cmd ts = Ok (Spec.b64text ct).
Proof.
  intros Ha Hk.
  pose proof (deriveKeyMaterial_cases cmd (password self) (salt self) ts) as Hlen.
  rewrite Hk in Hlen.
  destruct (pad_len_aligned (length (map nb param))) as [k Hal].
  rewrite <- pad_length in Hal.
  destruct (AESFacts.encrypt_length key _ (Spec.pad (map nb param)) k
              (aes_new_256 key Hlen) Hal) as [ct [Hct Hl]].
  exists (AES.mkCipher (AES.key_expansion key) 14), ct.
  split; [now apply aes_new_256|]. split; [exact Hct|].
  split; [now rewrite Hl, pad_length, length_map|].
  rewrite encrypt_param_ascii by exact Ha. unfold Spec.encryptParam.
  rewrite Hk. cbn [bind]. rewrite (aes_new_256 key Hlen). cbn [bind].
  rewrite (encode_ascii param Ha). cbn [bind]. rewrite Hct. reflexivity.
Qed.

(** ** [json.dumps] writes ASCII *)

Lemma is_ascii_py_uint (d : Decimal.uint) :
  is_ascii (py (NilEmpty.string_of_uint d)).
Proof.
  induction d; simpl; constructor; try exact IHd; reflexivity.
Qed.

Lemma str_of_int_ascii (z : Z) : is_ascii (str_of_int z).
Proof.
  assert (H : forall d, is_ascii (py (NilZero.string_of_uint d))).
  { intros d. unfold NilZero.string_of_uint.
    destruct d; try apply is_ascii_py_uint. repeat constructor. }
  unfold str_of_int, NilZero.string_of_int.
  destruct (Z.to_int z) as [d|d]; [apply H|].
  simpl. constructor; [reflexivity | apply H].
Qed.

Lemma hex_digit_ascii (n : N) : (hex_digit n < 128)%N.
Proof.
  unfold hex_digit.
  assert (n mod 16 < 16)%N by (apply N.mod_upper_bound; discriminate).
  destruct (n mod 16 <? 10)%N; lia.
Qed.

Lemma escape_u_ascii (n : N) : is_ascii (escape_u n).
Proof.
  unfold escape_u. apply is_ascii_app; [repeat constructor|].
  repeat constructor; apply hex_digit_ascii.
Qed.

Lemma escape_char_ascii (c : N) : is_ascii (escape_char c).
Proof.
  unfold escape_char.
  repeat match goal with
         | |- is_ascii (if ?b then _ else _) => destruct b eqn:?
         end;
    try (repeat constructor; fail);
    try apply escape_u_ascii.
  - apply andb_prop in Heqb6. destruct Heqb6 as [_ H].
    apply N.leb_le in H. constructor; [lia | constructor].
  - apply is_ascii_app; apply escape_u_ascii.
Qed.

Lemma encode_basestring_ascii_is_ascii (s : pystr) :
  is_ascii (encode_basestring_ascii s).
Proof.
  unfold encode_basestring_ascii.
  apply is_ascii_app; [repeat constructor|].
  apply is_ascii_app; [|repeat constructor].
  induction s as [|c s IH]; [constructor|].
  simpl. apply is_ascii_app; [apply escape_char_ascii | exact IH].
Qed.

Lemma join_ascii (sep : pystr) (items : list pystr) :
  is_ascii sep -> Forall is_ascii items -> is_ascii (join sep items).
Proof.
  intros Hs H. induction H as [|x l Hx Hl IH]; [constructor|].
  destruct l as [|y l]; [exact Hx|].
  change (join sep (x :: y :: l)) with (x ++ sep ++ join sep (y :: l)).
  apply is_ascii_app; [exact Hx|]. apply is_ascii_app; [exact Hs | exact IH].
Qed.

Lemma sequence_Forall {A B} (g : A -> option B) (Q : B -> Prop) (l : list A) :
  Forall (fun x => forall t, g x = Some t -> Q t) l ->
  forall items, sequence (map g l) = Some items -> Forall Q items.
Proof.
  induction 1 as [|x l Hx Hl IH]; intros items H.
  - injection H as <-. constructor.
  - simpl in H. destruct (g x) as [t|] eqn:E; [|discriminate].
    destruct (sequence (map g l)) as [ts|]; [|discriminate].
    injection H as <-. constructor; [now apply Hx | now apply IH].
Qed.

(** From [Some x = Some t], with [t] a variable: [t] becomes [x] as it
    stands. *)
Ltac some_inj H :=
  match type of H with
  | Some ?x = Some ?t =>
      let E := fresh in
      assert (E : t = x) by congruence; subst t; clear H
  end.

Lemma json_dumps_opt_ascii (v : pyval) :
  forall t, json_dumps_opt v = Some t -> is_ascii t.
Proof.
  induction v as [| b | z | s | l IH | d IH |] using pyval_nested_ind;
    intros t H.
  - injection H as <-. repeat constructor.
  - destruct b; injection H as <-; repeat constructor.
  - injection H as <-. apply str_of_int_ascii.
  - injection H as <-. apply encode_basestring_ascii_is_ascii.
  - cbn [json_dumps_opt] in H.
    destruct (sequence (map json_dumps_opt l)) as [items|] eqn:E; [|discriminate].
    cbn [option_map] in H. some_inj H.
    apply is_ascii_app; [repeat constructor|].
    apply is_ascii_app; [|repeat constructor].
    apply join_ascii; [repeat constructor|].
    exact (sequence_Forall json_dumps_opt is_ascii l IH items E).
  - cbn [json_dumps_opt] in H.
    match type of H with
    | option_map _ (sequence (map ?g d)) = _ =>
        destruct (sequence (map g d)) as [items|] eqn:E; [|discriminate];
        assert (Hi : Forall is_ascii items)
    end.
    { refine (sequence_Forall _ is_ascii d _ items E).
      eapply Forall_impl; [|exact IH].
      intros [k v] Hv u Hu. cbn [fst snd] in *.
      destruct (json_dumps_opt v) as [tv|]; [|discriminate].
      cbn [option_map] in Hu. some_inj Hu.
      apply is_ascii_app; [apply encode_basestring_ascii_is_ascii|].
      apply is_ascii_app; [repeat constructor | now apply Hv]. }
    cbn [option_map] in H. some_inj H.
    apply is_ascii_app; [repeat constructor|].
    apply is_ascii_app; [|repeat constructor].
    apply join_ascii; [repeat constructor | exact Hi].
  - discriminate.
Qed.

Lemma json_dumps_ascii (v : pyval) (t : pystr) :
  json_dumps v = Ok t -> is_ascii t.
Proof.
  unfold json_dumps. destruct (json_dumps_opt v) as [u|] eqn:E; [|discriminate].
  intros [= <-]. now apply (json_dumps_opt_ascii v).
Qed.

(** ** Envelopes *)

Lemma set_request_payload_shape (self : WhatsminerAPIv3) (now : Z)
  (cmd : pystr) (param : pyval) :
  set_request_payload self now cmd param =
    (token <- _generate_token self cmd now ;;
     Ok [(py "cmd", PStr cmd); (py "param", param); (py "ts", PInt now);
         (py "token", PStr token); (py "account", PStr (account self))]).
Proof.
  unfold set_request_payload.
  destruct (_generate_token self cmd now); reflexivity.
Qed.

(** C10.  The plain and the authenticated-plain builder always write a
    [param] member: the text they return has ["param": t] after the [cmd]
    member, [t] being the JSON text of the parameter, and [t] is [null]
    when the caller supplies no parameter ([None]).  No text is returned
    when the parameter cannot be serialised or no token can be derived. *)
Theorem param_member_always_emitted
  (self : WhatsminerAPIv3) (now : Z) (cmd : pystr) (param : pyval) :
  get_request_cmds self cmd param =
    match json_dumps_opt param with
    | Some t =>
        Ok (py "{" ++ quoted (py "cmd") ++ py ": "
              ++ encode_basestring_ascii cmd ++ py ", "
              ++ quoted (py "param") ++ py ": " ++ t ++ py "}")
    | None => Raise TypeError
    end
  /\ set_request_cmds self now cmd param =
    (token <- _generate_token self cmd now ;;
     match json_dumps_opt param with
     | Some t =>
         Ok (py "{" ++ quoted (py "cmd") ++ py ": "
               ++ encode_basestring_ascii cmd ++ py ", "
               ++ quoted (py "param") ++ py ": " ++ t ++ py ", "
               ++ quoted (py "ts") ++ py ": " ++ str_of_int now ++ py ", "
               ++ quoted (py "token") ++ py ": "
               ++ encode_basestring_ascii token ++ py ", "
               ++ quoted (py "account") ++ py ": "
               ++ encode_basestring_ascii (account self) ++ py "}")
     | None => Raise TypeError
     end)
  /\ json_dumps_opt PNone = Some (py "null").
Proof.
  split; [|split; [|reflexivity]].
  - unfold get_request_cmds, get_request_payload, json_dumps.
    cbn [json_dumps_opt map sequence fst snd].
    destruct (json_dumps_opt param) as [t|]; [|reflexivity].
    cbn [option_map sequence join]. f_equal.
    repeat rewrite <- app_assoc. reflexivity.
  - unfold set_request_cmds. rewrite set_request_payload_shape.
    destruct (_generate_token self cmd now) as [token|e]; [|reflexivity].
    cbn [bind]. unfold json_dumps.
    cbn [json_dumps_opt map sequence fst snd].
    destruct (json_dumps_opt param) as [t|]; [|reflexivity].
    cbn [option_map sequence join]. f_equal.
    repeat rewrite <- app_assoc. reflexivity.
Qed.





(** ** Encrypting a parameter *)

(** C9.  Under the key of any command, password, salt and timestamp,
    the JSON text [json.dumps] gives for the coin type [btc] (19 bytes,
    pad 13) is encrypted to a ciphertext of exactly 32 bytes, two blocks;
    so is the same text without the space after the colon (18 bytes,
    pad 14). *)
Theorem cointype_ciphertext_is_32_bytes
  (self : WhatsminerAPIv3) (cmd : pystr) (ts : Z) (key : bytes) :
  Spec.deriveKeyMaterial cmd (password self) (salt self) ts = Ok key ->
  let dumped :=
    py "{" ++ quoted (py "cointype") ++ py ": " ++ quoted (py "btc") ++ py "}" in
  let compact :=
    py "{" ++ quoted (py "cointype") ++ py ":" ++ quoted (py "btc") ++ py "}" in
  json_dumps (PDict [(py "cointype", PStr (py "btc"))]) = Ok dumped
  /\ length (map nb dumped) = 19%nat /\ Spec.pad_len 19 = 13%nat
  /\ length (map nb compact) = 18%nat /\ Spec.pad_len 18 = 14%nat
  /\ (exists cipher ct,
         AES.new key = Ok cipher
         /\ AES.encrypt cipher (Spec.pad (map nb dumped)) = Ok ct
         /\ length ct = 32%nat
         /\ _encrypt_param self dumped cmd ts = Ok (Spec.b64text ct))
  /\ (exists cipher ct,
         AES.new key = Ok cipher
         /\ AES.encrypt cipher (Spec.pad (map nb compact)) = Ok ct
         /\ length ct = 32%nat
         /\ _encrypt_param self compact cmd ts = Ok (Spec.b64text ct))
  /\ (forall any_key cipher,
         AES.new any_key = Ok cipher ->
         exists ct,
           AES.encrypt cipher (Spec.pad (map nb dumped)) = Ok ct
           /\ length ct = 32%nat).
Proof.
  intros Hk dumped compact.
  assert (Hd : is_ascii dumped) by (apply is_asciib_spec; reflexivity).
  assert (Hc : is_ascii compact) by (apply is_asciib_spec; reflexivity).
  repeat (split; [reflexivity|]). split.
  - destruct (encrypt_param_ascii_ok self dumped cmd ts key Hd Hk)
      as [cipher [ct [H1 [H2 [H3 H4]]]]].
    exists cipher, ct. repeat split; assumption.
  - split.
    + destruct (encrypt_param_ascii_ok self compact cmd ts key Hc Hk)
        as [cipher [ct [H1 [H2 [H3 H4]]]]].
      exists cipher, ct. repeat split; assumption.
    + intros any_key cipher Hn.
      destruct (AESFacts.encrypt_length any_key cipher
                  (Spec.pad (map nb dumped)) 2 Hn eq_refl) as [ct [H1 H2]].
      exists ct. split; [exact H1 | exact H2].
Qed.

Lemma cointype_ciphertext_is_32_bytes_witness :
  Spec.deriveKeyMaterial (py "set.miner.cointype") (password demo_api)
    (salt demo_api) demo_ts
    = Ok (SHA256.digest
            (map nb (py "set.miner.cointypesuperab12cd341700000000")))
  /\ exists cipher ct,
       AES.new (SHA256.digest
                  (map nb (py "set.miner.cointypesuperab12cd341700000000")))
         = Ok cipher
       /\ AES.encrypt cipher
            (Spec.pad (map nb (py "{" ++ quoted (py "cointype") ++ py ": "
                                 ++ quoted (py "btc") ++ py "}"))) = Ok ct
       /\ length ct = 32%nat
       /\ _encrypt_param demo_api
            (py "{" ++ quoted (py "cointype") ++ py ": " ++ quoted (py "btc")
               ++ py "}") (py "set.miner.cointype") demo_ts
          = Ok (Spec.b64text ct).
Proof.
  split; [vm_compute; reflexivity|].
  apply (cointype_ciphertext_is_32_bytes demo_api (py "set.miner.cointype")
           demo_ts).
  vm_compute. reflexivity.
Defined.

(** Outside ASCII the pad would be counted in characters, not bytes: for
    the one-character parameter U+00E9, two bytes in UTF-8,
    [_encrypt_param] appends 15 characters, the encoded text has 17
    bytes, and the cipher refuses it.  No caller in the repository
    passes such a parameter: both hand over the text of [json.dumps],
    which is ASCII ([json_dumps_ascii]). *)
Lemma encrypt_param_pads_by_characters
  (self : WhatsminerAPIv3) (cmd : pystr) (ts : Z) (key : bytes) :
  Spec.deriveKeyMaterial cmd (password self) (salt self) ts = Ok key ->
  let param := [233%N] in
  encode param = Ok [nb 195; nb 169]
  /\ Spec.pad_len 2 = 14%nat
  /\ encode (param ++ str_mul (chr (16 - length param mod 16))
                              (16 - length param mod 16))
     = Ok ([nb 195; nb 169] ++ repeat (nb 15) 15)
  /\ _encrypt_param self param cmd ts
     = Raise (ValueError "Data must be aligned to block boundary in ECB mode").
Proof.
  intros Hk param. repeat (split; [reflexivity|]).
  rewrite encrypt_param_key, Hk. cbn [bind].
  pose proof (deriveKeyMaterial_cases cmd (password self) (salt self) ts) as Hl.
  rewrite Hk in Hl. rewrite (aes_new_256 key Hl). cbn [bind].
  reflexivity.
Qed.

Lemma encrypt_param_pads_by_characters_witness :
  Spec.deriveKeyMaterial (py "set.miner.pools") (password demo_api)
    (salt demo_api) demo_ts
    = Ok (SHA256.digest (map nb (py "set.miner.poolssuperab12cd341700000000")))
  /\ _encrypt_param demo_api [233%N] (py "set.miner.pools") demo_ts
     = Raise (ValueError "Data must be aligned to block boundary in ECB mode").
Proof.
  split; [vm_compute; reflexivity|].
  apply (encrypt_param_pads_by_characters demo_api (py "set.miner.pools")
           demo_ts
           (SHA256.digest
              (map nb (py "set.miner.poolssuperab12cd341700000000")))).
  vm_compute. reflexivity.
Defined.

(** ** Framing *)

Lemma sbind_ok {St A B} (m : SM St A) (k : A -> SM St B) (s s' : St) (a : A) :
  m s = (Ok a, s') -> sbind m k s = k a s'.
Proof. intros H. unfold sbind. now rewrite H. Qed.

Lemma sbind_raise {St A B} (m : SM St A) (k : A -> SM St B) (s s' : St)
  (e : exn) :
  m s = (Raise e, s') -> sbind m k s = (Raise e, s').
Proof. intros H. unfold sbind. now rewrite H. Qed.

Lemma struct_pack_I_length (n : Z) (hdr : bytes) :
  struct_pack_I n = Ok hdr -> length hdr = 4%nat.
Proof.
  unfold struct_pack_I.
  destruct ((0 <=? n) && (n <? 4294967296))%Z; [|discriminate].
  intros [= <-]. reflexivity.
Qed.

(** The length header reads back as the number that was packed. *)
Lemma struct_unpack_pack (n : Z) (hdr : bytes) :
  struct_pack_I n = Ok hdr -> struct_unpack_I hdr = Ok (Z.to_N n).
Proof.
  unfold struct_pack_I.
  destruct ((0 <=? n) && (n <? 4294967296))%Z eqn:E; [|discriminate].
  intros [= <-]. apply andb_prop in E. destruct E as [E1 E2].
  apply Z.leb_le in E1. apply Z.ltb_lt in E2.
  assert (Hu : (Z.to_N n < 4294967296)%N) by lia.
  set (u := Z.to_N n) in *. cbn [struct_unpack_I]. f_equal.
  assert (Hm : forall x, bn (nb x) = (x mod 256)%N).
  { intros x. unfold nb. rewrite <- (bn_nb (x mod 256)) at 2.
    - unfold nb. now rewrite N.Div0.mod_mod.
    - apply N.mod_upper_bound. discriminate. }
  rewrite !Hm.
  pose proof (N.div_mod u 256) as D0.
  pose proof (N.div_mod (u / 256) 256) as D1.
  pose proof (N.div_mod (u / 65536) 256) as D2.
  pose proof (N.div_mod (u / 16777216) 256) as D3.
  assert (E16 : (u / 65536 = u / 256 / 256)%N) by (now rewrite N.Div0.div_div).
  assert (E24 : (u / 16777216 = u / 65536 / 256)%N)
    by (now rewrite N.Div0.div_div).
  assert (E32 : (u / 16777216 / 256 = 0)%N).
  { rewrite N.Div0.div_div. apply N.div_small. exact Hu. }
  lia.
Qed.

(** [recv] when the pending segments hold no more than is asked for. *)
Lemma take_chunk_small (k : nat) (chunks : list bytes) :
  (length (concat chunks) <= k)%nat ->
  concat chunks = fst (take_chunk k chunks) ++ concat (snd (take_chunk k chunks))
  /\ (fst (take_chunk k chunks) = [] -> concat chunks = []).
Proof.
  induction chunks as [|c rest IH]; intros H.
  - split; reflexivity.
  - destruct c as [|x c].
    + simpl in *. exact (IH H).
    + cbn [concat] in H. rewrite length_app in H.
      cbn [take_chunk].
      destruct (length (x :: c) <=? k)%nat eqn:E.
      * split; [reflexivity | discriminate].
      * apply Nat.leb_gt in E. lia.
Qed.

Lemma keeps_sret {A} (a : A) : keeps same_outgoing (sret a).
Proof. intros self. split; reflexivity. Qed.

Lemma keeps_lift {A} (r : result A) : keeps same_outgoing (lift r).
Proof. intros self. split; reflexivity. Qed.

Lemma keeps_sbind {A B} (m : SM WhatsminerTCP A) (k : A -> SM WhatsminerTCP B) :
  keeps same_outgoing m -> (forall a, keeps same_outgoing (k a)) ->
  keeps same_outgoing (sbind m k).
Proof.
  intros Hm Hk self. unfold sbind. specialize (Hm self).
  destruct (m self) as [[a|e] self']; cbn [snd] in *; [|exact Hm].
  specialize (Hk a self'). destruct Hm as [H1 H2], Hk as [H3 H4].
  split; congruence.
Qed.

Lemma keeps_not_sock : keeps same_outgoing not_sock.
Proof.
  intros self.
  assert (E : snd (not_sock self) = self)
    by (unfold not_sock; destruct (sock self); reflexivity).
  rewrite E. split; reflexivity.
Qed.

Lemma with_sock_some {A} (m : SM socket A) (self : WhatsminerTCP) (s : socket) :
  sock self = Some s ->
  with_sock m self = (fst (m s), set_sock self (Some (snd (m s)))).
Proof.
  intros E. unfold with_sock. rewrite E. now destruct (m s).
Qed.

Lemma with_sock_none {A} (m : SM socket A) (self : WhatsminerTCP) :
  sock self = None -> with_sock m self = (Raise AttributeError, self).
Proof. intros E. unfold with_sock. now rewrite E. Qed.

Lemma sock_recv_connected (k : nat) (s : socket) :
  status s = Connected ->
  sock_recv k s =
    (Ok (fst (take_chunk k (incoming s))),
     mkSocket Connected (snd (take_chunk k (incoming s))) (outgoing s)
       (calls s ++ [CRecv k])).
Proof.
  intros E. unfold sock_recv, log. cbn [status incoming outgoing calls].
  rewrite E. now destruct (take_chunk k (incoming s)).
Qed.

Lemma sock_recv_same (k : nat) (s : socket) :
  outgoing (snd (sock_recv k s)) = outgoing s
  /\ status (snd (sock_recv k s)) = status s.
Proof.
  unfold sock_recv, log. cbn [status incoming outgoing calls].
  destruct (status s) eqn:E; cbn [snd outgoing status]; auto.
  destruct (take_chunk k (incoming s)). cbn [snd outgoing status]. auto.
Qed.

Lemma keeps_recv (k : nat) : keeps same_outgoing (with_sock (sock_recv k)).
Proof.
  intros self. destruct (sock self) as [s|] eqn:E.
  - rewrite (with_sock_some _ self s E). cbn [snd].
    unfold same_outgoing. cbn [sock set_sock]. rewrite E. cbn [option_map].
    destruct (sock_recv_same k s) as [H1 H2]. now rewrite H1, H2.
  - rewrite (with_sock_none _ self E). split; reflexivity.
Qed.

Lemma keeps_recv_loop (fuel rsp_len : nat) (buffer : bytes) :
  keeps same_outgoing (recv_loop fuel rsp_len buffer).
Proof.
  revert buffer. induction fuel as [|fuel IH]; intros buffer.
  - apply keeps_sret.
  - cbn [recv_loop]. destruct (length buffer <? rsp_len)%nat;
      [|apply keeps_sret].
    apply keeps_sbind; [apply keeps_recv|].
    intros [|x more]; [apply keeps_sret | apply IH].
Qed.

Lemma keeps_receive_response : keeps same_outgoing _receive_response.
Proof.
  unfold _receive_response.
  apply keeps_sbind; [apply keeps_not_sock|]. intros [|]; [apply keeps_sret|].
  apply keeps_sbind; [apply keeps_recv|]. intros length_data.
  destruct (length length_data <? 4)%nat; [apply keeps_sret|].
  apply keeps_sbind; [apply keeps_lift|]. intros rsp_len.
  destruct (8192 <? rsp_len)%N; [apply keeps_sret|].
  apply keeps_sbind; [apply keeps_recv_loop|]. intros buffer.
  apply keeps_sbind; [apply keeps_lift|]. intros text. apply keeps_sret.
Qed.

Lemma not_sock_some (self : WhatsminerTCP) (s : socket) :
  sock self = Some s -> not_sock self = (Ok false, self).
Proof. intros E. unfold not_sock. now rewrite E. Qed.

Lemma recv_step (k : nat) (self : WhatsminerTCP) (s : socket) :
  sock self = Some s -> status s = Connected ->
  with_sock (sock_recv k) self =
    (Ok (fst (take_chunk k (incoming s))),
     set_sock self
       (Some (mkSocket Connected (snd (take_chunk k (incoming s)))
                (outgoing s) (calls s ++ [CRecv k])))).
Proof.
  intros E Hc. rewrite (with_sock_some _ self s E).
  now rewrite (sock_recv_connected k s Hc).
Qed.

Lemma sendall_step (data : bytes) (self : WhatsminerTCP) (s : socket) :
  sock self = Some s -> status s = Connected ->
  with_sock (sock_sendall data) self =
    (Ok tt,
     set_sock self
       (Some (mkSocket Connected (incoming s) (outgoing s ++ data)
                (calls s ++ [CSendall data])))).
Proof.
  intros E Hc. rewrite (with_sock_some _ self s E).
  unfold sock_sendall, log. cbn [status incoming outgoing calls].
  now rewrite Hc.
Qed.

(** When the peer closes before [rsp_len] bytes have come, the loop ends
    with what has come. *)
Lemma recv_loop_drains (fuel rsp_len : nat) :
  forall (buffer : bytes) (self : WhatsminerTCP) (s : socket),
    sock self = Some s -> status s = Connected ->
    (length buffer + length (concat (incoming s)) < rsp_len)%nat ->
    (length (concat (incoming s)) < fuel)%nat ->
    fst (recv_loop fuel rsp_len buffer self)
      = Ok (buffer ++ concat (incoming s)).
Proof.
  induction fuel as [|fuel IH]; intros buffer self s E Hc Hlen Hf; [lia|].
  cbn [recv_loop].
  assert (Hlt : (length buffer <? rsp_len)%nat = true) by (apply Nat.ltb_lt; lia).
  rewrite Hlt.
  rewrite (sbind_ok _ _ self _ _ (recv_step (rsp_len - length buffer) self s E Hc)).
  destruct (take_chunk_small (rsp_len - length buffer) (incoming s))
    as [Hcat Hnil]; [lia|].
  destruct (fst (take_chunk (rsp_len - length buffer) (incoming s)))
    as [|x d] eqn:Ed.
  - cbn [sret fst]. rewrite (Hnil eq_refl). now rewrite app_nil_r.
  - rewrite Hcat, app_assoc.
    rewrite Hcat, length_app in Hlen, Hf.
    match goal with
    | |- fst (recv_loop _ _ _ (set_sock _ (Some ?s'))) = _ =>
        apply (IH (buffer ++ x :: d) _ s')
    end.
    + reflexivity.
    + reflexivity.
    + cbn [incoming]. rewrite length_app. lia.
    + cbn [incoming]. simpl in Hf. lia.
Qed.

(** C3 fails on the code: a body cut short is returned.  When the header
    declares [n <= 8192] bytes and the peer closes after fewer than [n]
    body bytes, in whatever segments, [_receive_response] returns those
    bytes decoded, as a result and not as a failure. *)
Theorem truncated_body_is_returned
  (self : WhatsminerTCP) (n : Z) (hdr : bytes) (chunks : list bytes)
  (text : pystr) :
  struct_pack_I n = Ok hdr -> (n <= 8192)%Z ->
  (length (concat chunks) < Z.to_nat n)%nat ->
  decode (concat chunks) = Ok text ->
  fst (_receive_response (snd (connect (Some (hdr :: chunks)) self)))
    = Ok (Some text).
Proof.
  intros Hp Hn Hshort Hd.
  pose proof (struct_unpack_pack n hdr Hp) as Hu.
  pose proof (struct_pack_I_length n hdr Hp) as Hl.
  do 4 (destruct hdr as [|? hdr]; [discriminate Hl|]).
  destruct hdr; [|discriminate Hl].
  cbn [connect snd]. set (self0 := set_sock self _).
  unfold _receive_response.
  rewrite (sbind_ok _ _ self0 _ _ (not_sock_some self0 _ eq_refl)).
  rewrite (sbind_ok _ _ self0 _ _ (recv_step 4 self0 _ eq_refl eq_refl)).
  cbn [incoming take_chunk length Nat.leb fst snd Nat.ltb].
  unfold lift at 1. unfold sbind at 1. rewrite Hu.
  assert (Hle : (8192 <? Z.to_N n)%N = false) by (apply N.ltb_ge; lia).
  rewrite Hle. unfold sbind at 1.
  match goal with
  | |- context [recv_loop ?f ?r [] ?st] =>
      pose proof (recv_loop_drains f r [] st _ eq_refl eq_refl) as Hloop;
      destruct (recv_loop f r [] st) as [[buffer|e] st'] eqn:El
  end; cbn [incoming length Nat.add fst] in Hloop;
    rewrite Z_N_nat in Hloop; specialize (Hloop Hshort Hshort);
    [|discriminate].
  injection Hloop as ->. cbn [app].
  unfold lift, sbind, sret. rewrite Hd. reflexivity.
Qed.

Lemma truncated_body_is_returned_witness :
  struct_pack_I 10 = Ok [nb 10; x00; x00; x00]
  /\ fst (_receive_response
            (snd (connect (Some [[nb 10; x00; x00; x00]; map nb (py "abc")])
                    demo_tcp)))
     = Ok (Some (py "abc")).
Proof.
  split; [reflexivity|].
  apply (truncated_body_is_returned demo_tcp 10 [nb 10; x00; x00; x00]
           [map nb (py "abc")] (py "abc")).
  - reflexivity.
  - vm_compute. discriminate.
  - vm_compute. lia.
  - reflexivity.
Defined.

(** What [send] has done when the response is about to be read. *)
Lemma send_steps (json_loads : pystr -> result pyval) (message : pystr)
  (message_length : Z) (self : WhatsminerTCP) (s : socket)
  (hdr payload : bytes) :
  sock self = Some s -> status s = Connected ->
  struct_pack_I message_length = Ok hdr -> encode message = Ok payload ->
  send json_loads message message_length self =
    (response <~ _receive_response ;;
     match response with
     | None => sraise (RuntimeError "Failed to receive response")
     | Some text => lift (json_loads text)
     end)
      (set_sock self
         (Some (mkSocket Connected (incoming s) (outgoing s ++ hdr ++ payload)
                  (calls s ++ [CSendall hdr; CSendall payload])))).
Proof.
  intros E Hc Hp He. unfold send.
  rewrite (sbind_ok _ _ self _ _ (not_sock_some self s E)).
  unfold lift at 1. unfold sbind at 1. rewrite Hp.
  rewrite (sbind_ok _ _ self _ _ (sendall_step hdr self s E Hc)).
  unfold lift at 1. unfold sbind at 1. rewrite He.
  match goal with
  | |- sbind (with_sock (sock_sendall payload)) _ ?st = _ =>
      rewrite (sbind_ok _ _ st _ _ (sendall_step payload st _ eq_refl eq_refl))
  end.
  cbn [incoming outgoing calls set_sock ip port tcp_account tcp_password].
  now rewrite <- !app_assoc.
Qed.

Lemma receive_oversized (self : WhatsminerTCP) (s : socket) (n : N) :
  sock self = Some s -> status s = Connected ->
  struct_unpack_I (fst (take_chunk 4 (incoming s))) = Ok n ->
  (8192 < n)%N ->
  _receive_response self =
    (Ok None,
     set_sock self
       (Some (mkSocket Connected (snd (take_chunk 4 (incoming s)))
                (outgoing s) (calls s ++ [CRecv 4])))).
Proof.
  intros E Hc Hu Hn. unfold _receive_response.
  rewrite (sbind_ok _ _ self _ _ (not_sock_some self s E)).
  rewrite (sbind_ok _ _ self _ _ (recv_step 4 self s E Hc)).
  destruct (fst (take_chunk 4 (incoming s))) as [|b0 [|b1 [|b2 [|b3 [|b4 r]]]]];
    try discriminate Hu.
  cbn [length Nat.ltb Nat.leb].
  unfold lift at 1. unfold sbind at 1. rewrite Hu.
  apply N.ltb_lt in Hn. rewrite Hn. reflexivity.
Qed.

(** C4, as the code has it.  For every declared length above 8192,
    [_receive_response] returns [None] once the four header bytes are
    read: the socket has seen this one [recv(4)] and nothing of the body
    is taken from the peer; [send] then raises
    [RuntimeError("Failed to receive response")]. *)
Theorem oversized_length_rejected_before_body
  (json_loads : pystr -> result pyval) (self : WhatsminerTCP) (s : socket)
  (n : N) (message : pystr) (message_length : Z) (hdr payload : bytes) :
  sock self = Some s -> status s = Connected ->
  struct_unpack_I (fst (take_chunk 4 (incoming s))) = Ok n ->
  (8192 < n)%N ->
  struct_pack_I message_length = Ok hdr -> encode message = Ok payload ->
  _receive_response self =
    (Ok None,
     set_sock self
       (Some (mkSocket Connected (snd (take_chunk 4 (incoming s)))
                (outgoing s) (calls s ++ [CRecv 4]))))
  /\ send json_loads message message_length self =
    (Raise (RuntimeError "Failed to receive response"),
     set_sock self
       (Some (mkSocket Connected (snd (take_chunk 4 (incoming s)))
                (outgoing s ++ hdr ++ payload)
                (calls s ++ [CSendall hdr; CSendall payload; CRecv 4])))).
Proof.
  intros E Hc Hu Hn Hp He. split; [now apply (receive_oversized self s n)|].
  rewrite (send_steps json_loads message message_length self s hdr payload
             E Hc Hp He).
  match goal with
  | |- sbind _ _ ?st = _ =>
      rewrite (sbind_ok _ _ st _ _
                 (receive_oversized st _ n eq_refl eq_refl Hu Hn))
  end.
  cbn [incoming outgoing calls set_sock ip port tcp_account tcp_password sraise].
  now rewrite <- !app_assoc.
Qed.

Lemma oversized_length_rejected_before_body_witness :
  fst (_receive_response
         (snd (connect (Some [[nb 1; nb 32; x00; x00]; map nb (py "body")])
                 demo_tcp)))
    = Ok None
  /\ option_map incoming
       (sock (snd (_receive_response
                     (snd (connect
                             (Some [[nb 1; nb 32; x00; x00]; map nb (py "body")])
                             demo_tcp)))))
     = Some [map nb (py "body")].
Proof.
  destruct (oversized_length_rejected_before_body keep_text
              (snd (connect (Some [[nb 1; nb 32; x00; x00]; map nb (py "body")])
                      demo_tcp))
              (mkSocket Connected [[nb 1; nb 32; x00; x00]; map nb (py "body")]
                 [] [])
              8193 (py "{}") 2 [nb 2; x00; x00; x00] (map nb (py "{}")))
    as [H _]; try reflexivity.
  rewrite H. split; reflexivity.
Defined.

(** The claim of C4 as written: a [ProtocolError]. At a declared length
    of 8193 the code returns [None] and raises nothing. *)
Lemma oversized_is_not_a_protocol_error :
  fst (_receive_response
         (snd (connect (Some [[nb 1; nb 32; x00; x00]; map nb (py "body")])
                 demo_tcp)))
    = Ok None
  /\ fst (_receive_response
            (snd (connect (Some [[nb 1; nb 32; x00; x00]; map nb (py "body")])
                    demo_tcp)))
     <> Raise (ProtocolError "oversized response").
Proof.
  split; [reflexivity | discriminate].
Qed.

Lemma keeps_sraise {A} (e : exn) : keeps same_outgoing (@sraise _ A e).
Proof. intros self. split; reflexivity. Qed.

(** C6, as the code has it.  On a connected socket [send] writes the
    four little-endian bytes of the [message_length] its caller passes,
    then the UTF-8 bytes of the message, whatever the response.  A peer
    reading the frame recovers the payload, with the header equal to its
    length, when [message_length] is the byte length of the payload; it
    is for an ASCII message passed with [len(message)], which is how the
    scripts call [send] on the text [json.dumps] returns. *)
Theorem send_writes_declared_length_then_payload
  (json_loads : pystr -> result pyval) (self : WhatsminerTCP) (s : socket)
  (message : pystr) (message_length : Z) (hdr payload : bytes) :
  sock self = Some s -> status s = Connected ->
  struct_pack_I message_length = Ok hdr -> encode message = Ok payload ->
  option_map outgoing
    (sock (snd (send json_loads message message_length self)))
    = Some (outgoing s ++ hdr ++ payload)
  /\ length hdr = 4%nat
  /\ struct_unpack_I hdr = Ok (Z.to_N message_length)
  /\ (message_length = Z.of_nat (length payload) ->
      Spec.read_frame (hdr ++ payload)
        = Some (N.of_nat (length payload), payload))
  /\ (is_ascii message -> message_length = Z.of_nat (length message) ->
      Spec.read_frame (hdr ++ payload)
        = Some (N.of_nat (length message), map nb message)).
Proof.
  intros E Hc Hp He.
  pose proof (struct_pack_I_length message_length hdr Hp) as Hl.
  pose proof (struct_unpack_pack message_length hdr Hp) as Hu.
  assert (Hframe : message_length = Z.of_nat (length payload) ->
                   Spec.read_frame (hdr ++ payload)
                     = Some (N.of_nat (length payload), payload)).
  { intros Hm. unfold Spec.read_frame. clear Hp.
    do 4 (destruct hdr as [|? hdr]; [discriminate Hl|]).
    destruct hdr; [|discriminate Hl].
    cbn [firstn skipn app]. rewrite Hu.
    rewrite Hm, Z_N_nat, Nat2Z.id, firstn_all, Nat.eqb_refl.
    now rewrite <- nat_N_Z, N2Z.id. }
  split; [|split; [exact Hl | split; [exact Hu | split; [exact Hframe|]]]].
  - rewrite (send_steps json_loads message message_length self s hdr payload
               E Hc Hp He).
    match goal with
    | |- option_map outgoing (sock (snd (?m ?st))) = _ =>
        assert (K : keeps same_outgoing m)
    end.
    { apply keeps_sbind; [apply keeps_receive_response|].
      intros [text|]; [apply keeps_lift | apply keeps_sraise]. }
    match goal with
    | |- option_map outgoing (sock (snd (_ ?st))) = _ =>
        destruct (K st) as [K1 _]
    end.
    rewrite K1. reflexivity.
  - intros Ha Hm. rewrite (encode_ascii message Ha) in He.
    injection He as <-. rewrite length_map in Hframe.
    now apply Hframe.
Qed.

Lemma send_writes_declared_length_then_payload_witness :
  option_map outgoing
    (sock (snd (send keep_text (py "{}") 2
                  (snd (connect (Some []) demo_tcp)))))
    = Some ([nb 2; x00; x00; x00] ++ map nb (py "{}"))
  /\ Spec.read_frame ([nb 2; x00; x00; x00] ++ map nb (py "{}"))
     = Some (2%N, map nb (py "{}")).
Proof.
  destruct (send_writes_declared_length_then_payload keep_text
              (snd (connect (Some []) demo_tcp))
              (mkSocket Connected [] [] []) (py "{}") 2
              [nb 2; x00; x00; x00] (map nb (py "{}")))
    as [H1 [_ [_ [H2 _]]]]; try reflexivity.
  split; [exact H1 | apply H2; reflexivity].
Defined.

(** The claim of C6 as written fails when the caller's length is not the
    payload's: [send("abc", 5)] writes a header of 5 before 3 bytes, and
    the peer finds no frame. *)
Lemma send_header_is_callers_length :
  option_map outgoing
    (sock (snd (send keep_text (py "abc") 5
                  (snd (connect (Some []) demo_tcp)))))
    = Some ([nb 5; x00; x00; x00] ++ map nb (py "abc"))
  /\ struct_unpack_I [nb 5; x00; x00; x00]
     <> Ok (N.of_nat (length (map nb (py "abc"))))
  /\ Spec.read_frame ([nb 5; x00; x00; x00] ++ map nb (py "abc")) = None.
Proof.
  split; [reflexivity | split; [discriminate | reflexivity]].
Qed.

(** ** Closing *)

(** C5 fails on the code: [close] is not idempotent.  The first [close]
    of a connected transport succeeds and leaves [self.sock] set; the
    second shuts down a closed socket and raises.  Closing after a failed
    [connect] raises as well; only a transport that never created a
    socket closes without effect. *)
Theorem close_twice_raises (self : WhatsminerTCP) (segments : list bytes) :
  fst (close (snd (connect (Some segments) self))) = Ok tt
  /\ fst (close (snd (close (snd (connect (Some segments) self)))))
     = Raise (OSError "EBADF")
  /\ fst (close (snd (connect None self))) = Raise (OSError "ENOTCONN")
  /\ close (WhatsminerTCP_init (ip self) (port self) (tcp_account self)
              (tcp_password self))
     = (Ok tt,
        WhatsminerTCP_init (ip self) (port self) (tcp_account self)
          (tcp_password self)).
Proof.
  repeat split.
Qed.

(** ** The receive loop in full *)

(** The loop is total: any fuel of at least the number of bytes still
    missing gives the same run. *)
Lemma recv_loop_fuel (fuel1 : nat) :
  forall (fuel2 rsp_len : nat) (buffer : bytes) (self : WhatsminerTCP),
    (rsp_len - length buffer <= fuel1)%nat ->
    (rsp_len - length buffer <= fuel2)%nat ->
    recv_loop fuel1 rsp_len buffer self = recv_loop fuel2 rsp_len buffer self.
Proof.
  induction fuel1 as [|fuel1 IH]; intros fuel2 rsp_len buffer self H1 H2.
  - destruct fuel2 as [|fuel2]; [reflexivity|].
    cbn [recv_loop].
    assert (E : (length buffer <? rsp_len)%nat = false)
      by (apply Nat.ltb_ge; lia).
    now rewrite E.
  - cbn [recv_loop].
    destruct (length buffer <? rsp_len)%nat eqn:E.
    + apply Nat.ltb_lt in E.
      destruct fuel2 as [|fuel2]; [lia|].
      cbn [recv_loop]. apply Nat.ltb_lt in E. rewrite E. apply Nat.ltb_lt in E.
      unfold sbind.
      destruct (with_sock (sock_recv (rsp_len - length buffer)) self)
        as [[more|e] self']; [|reflexivity].
      destruct more as [|x more]; [reflexivity|].
      apply IH; rewrite length_app; simpl; lia.
    + destruct fuel2 as [|fuel2]; [reflexivity|].
      cbn [recv_loop]. now rewrite E.
Qed.

Lemma take_chunk_spec (k : nat) (chunks : list bytes) :
  concat chunks = fst (take_chunk k chunks) ++ concat (snd (take_chunk k chunks))
  /\ (length (fst (take_chunk k chunks)) <= k)%nat
  /\ ((0 < k)%nat -> fst (take_chunk k chunks) = [] -> concat chunks = []).
Proof.
  induction chunks as [|c rest IH].
  - repeat split; simpl; lia.
  - destruct c as [|x c]; [exact IH|].
    cbn [take_chunk].
    destruct (length (x :: c) <=? k)%nat eqn:E.
    + apply Nat.leb_le in E. repeat split; [exact E | discriminate].
    + cbn [fst snd concat]. repeat split.
      * now rewrite app_assoc, firstn_skipn.
      * rewrite length_firstn. lia.
      * intros Hk H. destruct k; [lia | discriminate H].
Qed.

Lemma set_sock_same (self : WhatsminerTCP) (s : socket) :
  sock self = Some s -> set_sock self (Some s) = self.
Proof. destruct self. cbn. now intros ->. Qed.

(** On a connected socket the loop returns the buffer extended with the
    missing bytes, as far as the peer delivers them, and leaves the rest
    of the stream unread. *)
Lemma recv_loop_spec (fuel rsp_len : nat) :
  forall (buffer : bytes) (self : WhatsminerTCP) (s : socket),
    sock self = Some s -> status s = Connected ->
    (rsp_len - length buffer <= fuel)%nat ->
    exists s',
      recv_loop fuel rsp_len buffer self
        = (Ok (buffer ++ firstn (rsp_len - length buffer) (concat (incoming s))),
           set_sock self (Some s'))
      /\ status s' = Connected
      /\ outgoing s' = outgoing s
      /\ concat (incoming s')
         = skipn (rsp_len - length buffer) (concat (incoming s)).
Proof.
  induction fuel as [|fuel IH]; intros buffer self s E Hc Hf.
  - exists s. assert (N0 : (rsp_len - length buffer = 0)%nat) by lia.
    rewrite N0. cbn [recv_loop firstn skipn sret].
    now rewrite app_nil_r, (set_sock_same self s E).
  - cbn [recv_loop]. destruct (length buffer <? rsp_len)%nat eqn:El.
    + apply Nat.ltb_lt in El.
      rewrite (sbind_ok _ _ self _ _
                 (recv_step (rsp_len - length buffer) self s E Hc)).
      destruct (take_chunk_spec (rsp_len - length buffer) (incoming s))
        as [Hcat [Hle Hnil]].
      remember (fst (take_chunk (rsp_len - length buffer) (incoming s)))
        as data eqn:Ed.
      remember (snd (take_chunk (rsp_len - length buffer) (incoming s)))
        as r eqn:Er.
      clear Ed Er. destruct data as [|x d].
      * assert (Hn : concat (incoming s) = [])
          by (apply Hnil; [lia | reflexivity]).
        rewrite Hn in *. rewrite firstn_nil, skipn_nil, app_nil_r.
        eexists. split; [reflexivity|].
        cbn [status outgoing incoming]. repeat split.
        cbn [app] in Hcat. now rewrite <- Hcat.
      * match goal with
        | |- context [recv_loop fuel rsp_len ?b (set_sock self (Some ?s1))] =>
            destruct (IH b (set_sock self (Some s1)) s1 eq_refl eq_refl)
              as [s' [Hrun [Hs [Ho Hi]]]]
        end.
        { rewrite length_app. simpl in *. lia. }
        exists s'. rewrite Hrun. cbn [incoming outgoing] in *.
        rewrite length_app in *. rewrite Hcat.
        replace (rsp_len - (length buffer + length (x :: d)))%nat
          with (rsp_len - length buffer - length (x :: d))%nat in * by lia.
        rewrite firstn_app, skipn_app.
        rewrite (@firstn_all2 _ (rsp_len - length buffer) (x :: d) Hle).
        rewrite (@skipn_all2 _ (rsp_len - length buffer) (x :: d) Hle).
        cbn [app]. rewrite <- app_assoc.
        repeat split; assumption.
    + apply Nat.ltb_ge in El. exists s.
      assert (N0 : (rsp_len - length buffer = 0)%nat) by lia.
      rewrite N0. cbn [firstn skipn sret].
      now rewrite app_nil_r, (set_sock_same self s E).
Qed.

(** What [_receive_response] returns on a connected socket: nothing when
    the first read brings fewer than four bytes or the declared length
    is above 8192; otherwise the text of, at most, the declared number of
    bytes of the stream that follows. *)
Lemma receive_response_spec (self : WhatsminerTCP) (s : socket) :
  sock self = Some s -> status s = Connected ->
  let hdr := fst (take_chunk 4 (incoming s)) in
  let stream := concat (snd (take_chunk 4 (incoming s))) in
  fst (_receive_response self) =
    match struct_unpack_I hdr with
    | Ok n =>
        if (8192 <? n)%N then Ok None
        else (text <- decode (firstn (N.to_nat n) stream) ;; Ok (Some text))
    | Raise _ => Ok None
    end.
Proof.
  intros E Hc hdr stream. unfold _receive_response.
  rewrite (sbind_ok _ _ self _ _ (not_sock_some self s E)).
  rewrite (sbind_ok _ _ self _ _ (recv_step 4 self s E Hc)).
  destruct (take_chunk_spec 4 (incoming s)) as [_ [Hle _]].
  fold hdr in Hle |- *.
  destruct hdr as [|b0 [|b1 [|b2 [|b3 [|b4 r]]]]]; try reflexivity;
    [|simpl in Hle; lia].
  cbn [length Nat.ltb Nat.leb]. unfold lift at 1. unfold sbind at 1.
  cbn [struct_unpack_I].
  set (n := (bn b0 + 256 * bn b1 + 65536 * bn b2 + 16777216 * bn b3)%N).
  destruct (8192 <? n)%N; [reflexivity|].
  unfold sbind at 1.
  match goal with
  | |- context [recv_loop ?f ?l [] ?st] =>
      destruct (recv_loop_spec f l [] st _ eq_refl eq_refl)
        as [s' [Hrun _]]; [simpl; lia|]
  end.
  rewrite Hrun.
  cbn [length app incoming]. rewrite Nat.sub_0_r. fold stream.
  unfold lift, sbind, sret, bind.
  now destruct (decode (firstn (N.to_nat n) stream)).
Qed.

(** ** The serial-number script

    [whatsminer_read_sn] is documented to return [None] if an error
    occurs.  When the connection is refused its [except] clause does
    produce [None], and the [close] of the [finally] clause then raises:
    the stored socket was never connected. *)
Lemma read_sn_raises_when_refused (json_loads : pystr -> result pyval)
  (worker_ip : pystr) (port : Z) :
  whatsminer_read_sn json_loads None worker_ip port
    = Raise (OSError "ENOTCONN").
Proof. reflexivity. Qed.

(** A device that sends nothing and closes: the error is caught, the
    connected socket is closed, and the script returns [None]. *)
Lemma read_sn_none_when_peer_silent (json_loads : pystr -> result pyval)
  (worker_ip : pystr) (port : Z) :
  whatsminer_read_sn json_loads (Some []) worker_ip port = Ok None.
Proof. reflexivity. Qed.

(** ** AES: the inverse cipher undoes the cipher *)

Module AESInverse.

Import AES.

(** *** Checking a property of bytes on all 256 of them *)

Lemma all_bytes_complete (b : byte) : In b all_bytes.
Proof.
  assert (E : all_bytes = map (fun i => nb (N.of_nat i)) (seq 0 256))
    by (vm_compute; reflexivity).
  rewrite E, <- (nb_bn b), <- (N2Nat.id (bn b)).
  apply (in_map (fun i => nb (N.of_nat i))). apply in_seq.
  pose proof (bn_lt b). lia.
Qed.

Lemma for_all_bytes (p : byte -> bool) :
  forallb p all_bytes = true -> forall b, p b = true.
Proof.
  intros H b. rewrite forallb_forall in H. apply H, all_bytes_complete.
Qed.

Lemma for_all_bytes2 (p : byte -> byte -> bool) :
  forallb (fun a => forallb (p a) all_bytes) all_bytes = true ->
  forall a b, p a b = true.
Proof.
  intros H a b.
  apply (for_all_bytes (p a)).
  exact (for_all_bytes (fun a => forallb (p a) all_bytes) H a).
Qed.

Ltac by_bytes :=
  intros;
  match goal with
  | |- ?l = ?r :> byte =>
      apply byte_dec_bl;
      match goal with
      | a : byte, b : byte |- _ =>
          pattern a, b;
          match goal with
          | |- (fun x y => @?p x y = true) a b =>
              apply (for_all_bytes2 (fun x y => p x y))
          end
      | a : byte |- _ =>
          pattern a;
          match goal with
          | |- (fun x => @?p x = true) a =>
              apply (for_all_bytes (fun x => p x))
          end
      end
  end; vm_compute; reflexivity.

(** *** Exclusive or on bytes *)

Lemma bn_bxor (a b : byte) : bn (bxor a b) = N.lxor (bn a) (bn b).
Proof.
  assert (H : (N.lxor (bn a) (bn b) =? bn (bxor a b))%N = true).
  { pattern a, b.
    apply (for_all_bytes2
             (fun x y => (N.lxor (bn x) (bn y) =? bn (bxor x y))%N)).
    vm_compute. reflexivity. }
  apply N.eqb_eq in H. now symmetry.
Qed.

Lemma bxor_cancel (a b : byte) : bxor (bxor a b) b = a.
Proof.
  apply bn_inj. rewrite !bn_bxor, N.lxor_assoc, N.lxor_nilpotent.
  apply N.lxor_0_r.
Qed.

Lemma bxor_0_r (a : byte) : bxor a x00 = a.
Proof. apply bn_inj. rewrite bn_bxor. apply N.lxor_0_r. Qed.

(** Two sums of four terms added term by term. *)
Lemma bxor_interleave (p0 p1 p2 p3 q0 q1 q2 q3 : byte) :
  bxor (bxor p0 q0) (bxor (bxor p1 q1) (bxor (bxor p2 q2) (bxor p3 q3)))
  = bxor (bxor p0 (bxor p1 (bxor p2 p3))) (bxor q0 (bxor q1 (bxor q2 q3))).
Proof.
  apply bn_inj. rewrite !bn_bxor. apply N.bits_inj. intros i.
  rewrite !N.lxor_spec.
  destruct (N.testbit (bn p0) i), (N.testbit (bn p1) i),
    (N.testbit (bn p2) i), (N.testbit (bn p3) i),
    (N.testbit (bn q0) i), (N.testbit (bn q1) i),
    (N.testbit (bn q2) i), (N.testbit (bn q3) i); reflexivity.
Qed.

Lemma xor_bytes_cancel (s k : bytes) :
  (length s <= length k)%nat -> xor_bytes (xor_bytes s k) k = s.
Proof.
  revert k. induction s as [|a s IH]; intros k H; [reflexivity|].
  destruct k as [|b k]; [simpl in H; lia|].
  unfold xor_bytes in *. cbn [combine map fst snd].
  rewrite bxor_cancel. f_equal. apply IH. simpl in H. lia.
Qed.

(** *** The byte substitution and the row shift *)

Lemma inv_sbox_sbox (a : byte) : inv_sbox (sbox a) = a.
Proof. by_bytes. Qed.

Lemma inv_sub_bytes_sub_bytes (s : bytes) : inv_sub_bytes (sub_bytes s) = s.
Proof.
  unfold inv_sub_bytes, sub_bytes. rewrite map_map.
  induction s as [|a s IH]; [reflexivity|].
  simpl. now rewrite inv_sbox_sbox, IH.
Qed.

Lemma inv_shift_rows_shift_rows (s : bytes) :
  inv_shift_rows (shift_rows s) = s.
Proof.
  do 17 (destruct s as [|? s]; [reflexivity|]). reflexivity.
Qed.

(** *** The column mix

    Both column maps are sums of multiples of the four bytes, hence
    additive; their composition is the identity on each unit column. *)

Lemma mul2_add (a b : byte) : mul2 (bxor a b) = bxor (mul2 a) (mul2 b).
Proof. by_bytes. Qed.

Lemma mul3_add (a b : byte) : mul3 (bxor a b) = bxor (mul3 a) (mul3 b).
Proof. by_bytes. Qed.

Lemma mul9_add (a b : byte) : mul9 (bxor a b) = bxor (mul9 a) (mul9 b).
Proof. by_bytes. Qed.

Lemma mul11_add (a b : byte) : mul11 (bxor a b) = bxor (mul11 a) (mul11 b).
Proof. by_bytes. Qed.

Lemma mul13_add (a b : byte) : mul13 (bxor a b) = bxor (mul13 a) (mul13 b).
Proof. by_bytes. Qed.

Lemma mul14_add (a b : byte) : mul14 (bxor a b) = bxor (mul14 a) (mul14 b).
Proof. by_bytes. Qed.

Lemma mix_column_add (a0 a1 a2 a3 b0 b1 b2 b3 : byte) :
  mix_column (bxor a0 b0) (bxor a1 b1) (bxor a2 b2) (bxor a3 b3)
  = xor_bytes (mix_column a0 a1 a2 a3) (mix_column b0 b1 b2 b3).
Proof.
  unfold mix_column, xor_bytes. cbn [combine map fst snd].
  rewrite !mul2_add, !mul3_add, <- !bxor_interleave. reflexivity.
Qed.

Lemma inv_mix_column_add (a0 a1 a2 a3 b0 b1 b2 b3 : byte) :
  inv_mix_column (bxor a0 b0) (bxor a1 b1) (bxor a2 b2) (bxor a3 b3)
  = xor_bytes (inv_mix_column a0 a1 a2 a3) (inv_mix_column b0 b1 b2 b3).
Proof.
  unfold inv_mix_column, xor_bytes. cbn [combine map fst snd].
  rewrite !mul9_add, !mul11_add, !mul13_add, !mul14_add, <- !bxor_interleave.
  reflexivity.
Qed.

Lemma bytes_eqb_eq (a b : bytes) : bytes_eqb a b = true -> a = b.
Proof.
  unfold bytes_eqb. revert b. induction a as [|x a IH]; intros b H.
  - destruct b; [reflexivity | discriminate].
  - destruct b as [|y b]; [discriminate|].
    cbn in H. apply andb_prop in H. destruct H as [Hl H].
    apply andb_prop in H. destruct H as [Hx H].
    apply byte_dec_bl in Hx. subst y. f_equal. apply IH.
    now rewrite Hl, H.
Qed.

Lemma unmix_units (a : byte) :
  unmix a x00 x00 x00 = [a; x00; x00; x00]
  /\ unmix x00 a x00 x00 = [x00; a; x00; x00]
  /\ unmix x00 x00 a x00 = [x00; x00; a; x00]
  /\ unmix x00 x00 x00 a = [x00; x00; x00; a].
Proof.
  pose (check := fun a =>
          (bytes_eqb (unmix a x00 x00 x00) [a; x00; x00; x00]
           && bytes_eqb (unmix x00 a x00 x00) [x00; a; x00; x00]
           && bytes_eqb (unmix x00 x00 a x00) [x00; x00; a; x00]
           && bytes_eqb (unmix x00 x00 x00 a) [x00; x00; x00; a])%bool).
  assert (H : forall b, check b = true).
  { apply (for_all_bytes check). vm_compute. reflexivity. }
  specialize (H a). unfold check in H. clear check.
  apply andb_prop in H. destruct H as [H H3].
  apply andb_prop in H. destruct H as [H H2].
  apply andb_prop in H. destruct H as [H0 H1].
  repeat split; now apply bytes_eqb_eq.
Qed.

Lemma unmix_add (a0 a1 a2 a3 b0 b1 b2 b3 : byte) :
  unmix (bxor a0 b0) (bxor a1 b1) (bxor a2 b2) (bxor a3 b3)
  = xor_bytes (unmix a0 a1 a2 a3) (unmix b0 b1 b2 b3).
Proof.
  unfold unmix. rewrite mix_column_add.
  unfold mix_column at 1 2 3 4. unfold xor_bytes at 1.
  cbn [combine map fst snd]. apply inv_mix_column_add.
Qed.

Lemma bxor_0_l (a : byte) : bxor x00 a = a.
Proof. apply bn_inj. rewrite bn_bxor. apply N.lxor_0_l. Qed.

Lemma unmix_id (a0 a1 a2 a3 : byte) : unmix a0 a1 a2 a3 = [a0; a1; a2; a3].
Proof.
  destruct (unmix_units a0) as [U0 _].
  destruct (unmix_units a1) as [_ [U1 _]].
  destruct (unmix_units a2) as [_ [_ [U2 _]]].
  destruct (unmix_units a3) as [_ [_ [_ U3]]].
  transitivity
    (unmix (bxor a0 (bxor x00 (bxor x00 x00)))
           (bxor x00 (bxor a1 (bxor x00 x00)))
           (bxor x00 (bxor x00 (bxor a2 x00)))
           (bxor x00 (bxor x00 (bxor x00 a3)))).
  { now rewrite ?bxor_0_l, ?bxor_0_r. }
  rewrite !unmix_add, U0, U1, U2, U3.
  unfold xor_bytes. cbn [combine map fst snd].
  now rewrite ?bxor_0_l, ?bxor_0_r.
Qed.

Lemma inv_mix_columns_step (a0 a1 a2 a3 : byte) (rest : bytes) :
  inv_mix_columns (mix_column a0 a1 a2 a3 ++ rest)
  = [a0; a1; a2; a3] ++ inv_mix_columns rest.
Proof.
  pose proof (unmix_id a0 a1 a2 a3) as H. unfold unmix in H.
  unfold mix_column in *. cbn [app inv_mix_columns]. now rewrite H.
Qed.

Lemma inv_mix_columns_mix_columns (s : bytes) :
  length s = 16%nat -> inv_mix_columns (mix_columns s) = s.
Proof.
  intros H. AESFacts.list16 s H. cbn [mix_columns].
  rewrite !inv_mix_columns_step. reflexivity.
Qed.

(** *** Rounds, blocks and messages *)

Lemma add_round_key_cancel (w : list word) (Nr r : nat) (s : bytes) :
  schedule_ok w Nr -> (r <= Nr)%nat -> length s = 16%nat ->
  add_round_key w r (add_round_key w r s) = s.
Proof.
  intros Hw Hr Hs. unfold add_round_key. apply xor_bytes_cancel.
  rewrite (AESFacts.round_key_length w Nr r Hw Hr). lia.
Qed.

Lemma inv_middle_rounds_middle_rounds (w : list word) (Nr count : nat) :
  schedule_ok w Nr ->
  forall (r : nat) (s : bytes),
    (r + count <= Nr + 1)%nat -> length s = 16%nat ->
    inv_middle_rounds w count r (middle_rounds w count r s) = s.
Proof.
  intros Hw. induction count as [|count IH]; intros r s Hr Hs; [reflexivity|].
  cbn [middle_rounds inv_middle_rounds].
  assert (H1 : length (mix_columns (shift_rows (sub_bytes s))) = 16%nat).
  { apply AESFacts.mix_columns_length, AESFacts.shift_rows_length.
    now rewrite AESFacts.sub_bytes_length. }
  rewrite IH.
  - rewrite (add_round_key_cancel w Nr r _ Hw) by (lia || exact H1).
    rewrite inv_mix_columns_mix_columns.
    + now rewrite inv_shift_rows_shift_rows, inv_sub_bytes_sub_bytes.
    + apply AESFacts.shift_rows_length. now rewrite AESFacts.sub_bytes_length.
  - lia.
  - apply (AESFacts.add_round_key_length w Nr r _ Hw); [lia | exact H1].
Qed.

Lemma decrypt_block_encrypt_block (w : list word) (Nr : nat) (block : bytes) :
  schedule_ok w Nr -> length block = 16%nat ->
  decrypt_block w Nr (encrypt_block w Nr block) = block.
Proof.
  intros Hw Hb. unfold decrypt_block, encrypt_block.
  assert (H0 : length (add_round_key w 0 block) = 16%nat)
    by (apply (AESFacts.add_round_key_length w Nr 0 _ Hw); [lia | exact Hb]).
  assert (H1 : length (middle_rounds w (Nr - 1) 1 (add_round_key w 0 block))
               = 16%nat).
  { destruct Nr as [|n]; [exact H0|].
    apply (AESFacts.middle_rounds_length w (S n)); [exact Hw | lia | exact H0]. }
  rewrite (add_round_key_cancel w Nr Nr _ Hw); [|lia|].
  - rewrite inv_shift_rows_shift_rows, inv_sub_bytes_sub_bytes.
    destruct Nr as [|n].
    + cbn [Nat.sub middle_rounds inv_middle_rounds].
      apply (add_round_key_cancel w 0 0 _ Hw); [lia | exact Hb].
    + rewrite (inv_middle_rounds_middle_rounds w (S n) _ Hw); [|lia|exact H0].
      apply (add_round_key_cancel w (S n) 0 _ Hw); [lia | exact Hb].
  - apply AESFacts.shift_rows_length. now rewrite AESFacts.sub_bytes_length.
Qed.

Lemma ecb_decrypt_blocks_ecb_blocks (c : cipher) (fuel1 : nat) :
  schedule_ok (round_keys c) (Nr c) ->
  forall (fuel2 k : nat) (data : bytes),
    length data = (16 * k)%nat -> (k <= fuel1)%nat -> (k <= fuel2)%nat ->
    ecb_decrypt_blocks c fuel2 (ecb_blocks c fuel1 data) = data.
Proof.
  intros Hc. induction fuel1 as [|fuel1 IH]; intros fuel2 k data Hl H1 H2.
  - assert (k = 0)%nat by lia. subst k. destruct data; [|discriminate].
    now destruct fuel2.
  - destruct data as [|x data']; [now destruct fuel2|].
    destruct k as [|k]; [discriminate|].
    destruct fuel2 as [|fuel2]; [lia|].
    cbn [ecb_blocks]. remember (x :: data') as data eqn:Ed.
    assert (Hf : length (firstn 16 data) = 16%nat)
      by (rewrite length_firstn; lia).
    pose proof (AESFacts.encrypt_block_length _ _ _ Hc Hf) as He.
    cbn [ecb_decrypt_blocks].
    destruct (encrypt_block (round_keys c) (Nr c) (firstn 16 data)
                ++ ecb_blocks c fuel1 (skipn 16 data)) as [|y ct] eqn:Ect.
    + apply (f_equal (@length byte)) in Ect.
      rewrite length_app, He in Ect. discriminate.
    + rewrite <- Ect.
      rewrite (firstn_app_length _ _ 16 He), (skipn_app_length _ _ 16 He).
      rewrite (decrypt_block_encrypt_block _ _ _ Hc Hf).
      rewrite (IH fuel2 k); [apply firstn_skipn | | lia | lia].
      rewrite length_skipn. lia.
Qed.

(** Decrypting what [encrypt] returns gives the data back. *)
Lemma decrypt_encrypt (key : bytes) (c : cipher) (data ct : bytes) :
  new key = Ok c -> encrypt c data = Ok ct -> decrypt c ct = Ok data.
Proof.
  intros Hn He. unfold encrypt in He.
  destruct (length data mod 16 =? 0)%nat eqn:Em; [|discriminate].
  injection He as <-. apply Nat.eqb_eq in Em.
  pose proof (AESFacts.new_schedule_ok key c Hn) as Hc.
  assert (Hk : length data = (16 * (length data / 16))%nat).
  { pose proof (Nat.div_mod_eq (length data) 16). lia. }
  pose proof (AESFacts.ecb_blocks_length c (length data) _ data Hc Hk) as Hl.
  assert (Hle : (length data / 16 <= length data)%nat)
    by (apply Nat.Div0.div_le_upper_bound; lia).
  specialize (Hl Hle).
  unfold decrypt. rewrite Hl, Em. cbn [Nat.eqb]. f_equal.
  now apply (ecb_decrypt_blocks_ecb_blocks c (length data) Hc (length data)
               (length data / 16)).
Qed.

End AESInverse.

(** ** The round trip of an ASCII parameter

    What [_encrypt_param] returns for an ASCII parameter is the base64
    text of a ciphertext from which the holder of the key recovers the
    parameter: decrypt, then strip as many bytes as the last one says. *)
Lemma ascii_param_round_trip (self : WhatsminerAPIv3) (param cmd : pystr)
  (ts : Z) (key : bytes) :
  is_ascii param ->
  Spec.deriveKeyMaterial cmd (password self) (salt self) ts = Ok key ->
  exists cipher ct,
    AES.new key = Ok cipher
    /\ _encrypt_param self param cmd ts = Ok (Spec.b64text ct)
    /\ (1 <= Spec.pad_len (length param) <= 16)%nat
    /\ length ct = (length param + Spec.pad_len (length param))%nat
    /\ (padded <- AES.decrypt cipher ct ;; Ok (Spec.unpad padded))
       = Ok (map nb param).
Proof.
  intros Ha Hk.
  destruct (encrypt_param_ascii_ok self param cmd ts key Ha Hk)
    as [cipher [ct [Hn [He [Hl Hp]]]]].
  exists cipher, ct. repeat split; try assumption; try apply pad_len_range.
  rewrite (AESInverse.decrypt_encrypt key cipher _ ct Hn He). cbn [bind].
  now rewrite unpad_pad.
Qed.

(** C2.  [_encrypt_param] is given the text [json.dumps] returns, which
    is ASCII: its characters are its raw bytes.  For every such
    plaintext, of length [L], the bytes encrypted are the plaintext
    followed by [p] bytes of value [p] with [p = 16 - L mod 16]; [p] lies
    in 1..16, and is 16 when [L] is a multiple of 16, a full block of
    padding.  Decrypting the ciphertext gives these padded bytes back,
    and stripping as many bytes as the last one says recovers the
    plaintext exactly. *)
Theorem encrypt_param_pads_raw_bytes
  (self : WhatsminerAPIv3) (param cmd : pystr) (ts : Z) (key : bytes) :
  is_ascii param ->
  Spec.deriveKeyMaterial cmd (password self) (salt self) ts = Ok key ->
  let raw := map nb param in
  let p := (16 - length raw mod 16)%nat in
  encode param = Ok raw
  /\ (1 <= p <= 16)%nat
  /\ (length raw mod 16 = 0 -> p = 16)%nat
  /\ exists cipher ct,
       AES.new key = Ok cipher
       /\ AES.encrypt cipher (raw ++ repeat (nb (N.of_nat p)) p) = Ok ct
       /\ _encrypt_param self param cmd ts = Ok (Spec.b64text ct)
       /\ AES.decrypt cipher ct = Ok (raw ++ repeat (nb (N.of_nat p)) p)
       /\ Spec.unpad (raw ++ repeat (nb (N.of_nat p)) p) = raw.
Proof.
  intros Ha Hk raw p.
  pose proof (pad_len_range (length raw)) as Hp.
  change (Spec.pad_len (length raw)) with p in Hp.
  split; [now apply encode_ascii|].
  split; [exact Hp|].
  split; [intros H0; unfold p; rewrite H0; reflexivity|].
  destruct (encrypt_param_ascii_ok self param cmd ts key Ha Hk)
    as [cipher [ct [Hn [He [_ Hr]]]]].
  exists cipher, ct.
  change (Spec.pad (map nb param)) with (raw ++ repeat (nb (N.of_nat p)) p) in He.
  split; [exact Hn|]. split; [exact He|]. split; [exact Hr|].
  split.
  - exact (AESInverse.decrypt_encrypt key cipher _ ct Hn He).
  - exact (unpad_pad raw).
Qed.

Lemma encrypt_param_pads_raw_bytes_witness :
  is_ascii (py "1234567890123456")
  /\ exists cipher ct,
       AES.encrypt cipher
         (map nb (py "1234567890123456") ++ repeat (nb 16) 16) = Ok ct
       /\ _encrypt_param demo_api (py "1234567890123456")
            (py "set.miner.pools") demo_ts = Ok (Spec.b64text ct)
       /\ AES.decrypt cipher ct
          = Ok (map nb (py "1234567890123456") ++ repeat (nb 16) 16)
       /\ Spec.unpad (map nb (py "1234567890123456") ++ repeat (nb 16) 16)
          = map nb (py "1234567890123456").
Proof.
  split; [apply is_asciib_spec; reflexivity|].
  destruct (encrypt_param_pads_raw_bytes demo_api (py "1234567890123456")
              (py "set.miner.pools") demo_ts
              (SHA256.digest
                 (map nb (py "set.miner.poolssuperab12cd341700000000"))))
    as [_ [_ [_ [cipher [ct [_ [He [Hr [Hd Hu]]]]]]]]].
  - apply is_asciib_spec. reflexivity.
  - vm_compute. reflexivity.
  - exists cipher, ct. repeat split; assumption.
Defined.

(** ** More on the transport *)

Lemma only_recv_refl (a : WhatsminerTCP) : only_recv a a.
Proof.
  unfold only_recv. destruct (sock a) as [s|]; [|exact I].
  repeat split. exists []. now rewrite app_nil_r.
Qed.

Lemma only_recv_trans (a b c : WhatsminerTCP) :
  only_recv a b -> only_recv b c -> only_recv a c.
Proof.
  unfold only_recv.
  destruct (sock a) as [sa|], (sock b) as [sb|], (sock c) as [sc|];
    try tauto.
  intros [H1 [H2 [k1 H3]]] [H4 [H5 [k2 H6]]].
  repeat split; try congruence.
  exists (k1 ++ k2). now rewrite H6, H3, map_app, app_assoc.
Qed.

Lemma keeps_only_recv_sbind {A B} (m : SM WhatsminerTCP A)
  (k : A -> SM WhatsminerTCP B) :
  keeps only_recv m -> (forall a, keeps only_recv (k a)) ->
  keeps only_recv (sbind m k).
Proof.
  intros Hm Hk self. unfold sbind. specialize (Hm self).
  destruct (m self) as [[a|e] self']; cbn [snd] in *; [|exact Hm].
  exact (only_recv_trans _ _ _ Hm (Hk a self')).
Qed.

Lemma keeps_only_recv_pure {A} (r : result A) : keeps only_recv (lift r).
Proof. intros self. apply only_recv_refl. Qed.

Lemma keeps_only_recv_not_sock : keeps only_recv not_sock.
Proof.
  intros self.
  assert (E : snd (not_sock self) = self)
    by (unfold not_sock; destruct (sock self); reflexivity).
  rewrite E. apply only_recv_refl.
Qed.

Lemma keeps_only_recv_recv (k : nat) : keeps only_recv (with_sock (sock_recv k)).
Proof.
  intros self. destruct (sock self) as [s|] eqn:E.
  - rewrite (with_sock_some _ self s E). cbn [snd].
    unfold only_recv. cbn [sock set_sock]. rewrite E.
    unfold sock_recv, log. cbn [status incoming outgoing calls].
    destruct (status s) eqn:Es; cbn [snd status outgoing calls];
      try (repeat split; auto; exists [k]; reflexivity).
    destruct (take_chunk k (incoming s)). cbn [snd status outgoing calls].
    repeat split; auto. exists [k]. reflexivity.
  - rewrite (with_sock_none _ self E). apply only_recv_refl.
Qed.

Lemma keeps_only_recv_loop (fuel rsp_len : nat) (buffer : bytes) :
  keeps only_recv (recv_loop fuel rsp_len buffer).
Proof.
  revert buffer. induction fuel as [|fuel IH]; intros buffer.
  - intros self. apply only_recv_refl.
  - cbn [recv_loop]. destruct (length buffer <? rsp_len)%nat;
      [|intros self; apply only_recv_refl].
    apply keeps_only_recv_sbind; [apply keeps_only_recv_recv|].
    intros [|x more]; [intros self; apply only_recv_refl | apply IH].
Qed.

(** Whatever it returns or raises, [_receive_response] only reads: it
    never writes to the socket, shuts it down or closes it, so that an
    oversized or truncated response leaves the connection open. *)
Theorem receive_only_reads (self : WhatsminerTCP) :
  only_recv self (snd (_receive_response self)).
Proof.
  revert self. change (keeps only_recv _receive_response).
  unfold _receive_response.
  apply keeps_only_recv_sbind; [apply keeps_only_recv_not_sock|].
  intros [|]; [intros self; apply only_recv_refl|].
  apply keeps_only_recv_sbind; [apply keeps_only_recv_recv|]. intros length_data.
  destruct (length length_data <? 4)%nat; [intros self; apply only_recv_refl|].
  apply keeps_only_recv_sbind; [apply keeps_only_recv_pure|]. intros rsp_len.
  destruct (8192 <? rsp_len)%N; [intros self; apply only_recv_refl|].
  apply keeps_only_recv_sbind; [apply keeps_only_recv_loop|]. intros buffer.
  apply keeps_only_recv_sbind; [apply keeps_only_recv_pure|]. intros text.
  intros self. apply only_recv_refl.
Qed.

(** The state [_receive_response] leaves after a well-formed header. *)
Lemma receive_response_state (self : WhatsminerTCP) (s : socket) (n : N) :
  sock self = Some s -> status s = Connected ->
  struct_unpack_I (fst (take_chunk 4 (incoming s))) = Ok n ->
  (n <= 8192)%N ->
  exists s',
    _receive_response self
      = (text <- decode (firstn (N.to_nat n)
                           (concat (snd (take_chunk 4 (incoming s))))) ;;
         Ok (Some text),
         set_sock self (Some s'))
    /\ status s' = Connected
    /\ outgoing s' = outgoing s
    /\ concat (incoming s')
       = skipn (N.to_nat n) (concat (snd (take_chunk 4 (incoming s)))).
Proof.
  intros E Hc Hu Hn. unfold _receive_response.
  rewrite (sbind_ok _ _ self _ _ (not_sock_some self s E)).
  rewrite (sbind_ok _ _ self _ _ (recv_step 4 self s E Hc)).
  destruct (fst (take_chunk 4 (incoming s))) as [|b0 [|b1 [|b2 [|b3 [|b4 r]]]]];
    try discriminate Hu.
  cbn [length Nat.ltb Nat.leb]. unfold lift at 1. unfold sbind at 1.
  rewrite Hu.
  assert (Hle : (8192 <? n)%N = false) by (apply N.ltb_ge; exact Hn).
  rewrite Hle. unfold sbind at 1.
  match goal with
  | |- context [recv_loop ?f ?l [] ?st] =>
      destruct (recv_loop_spec f l [] st _ eq_refl eq_refl)
        as [s' [Hrun [Hs [Ho Hi]]]]; [simpl; lia|]
  end.
  rewrite Hrun. cbn [length app incoming outgoing] in *.
  rewrite Nat.sub_0_r in *.
  exists s'. split; [|repeat split; assumption].
  unfold lift, sbind, sret, bind.
  destruct (decode _); reflexivity.
Qed.

(** A response is read up to its declared length and no further: with a
    header declaring [n <= 8192] and at least [n] bytes behind it, in any
    segmentation, [_receive_response] decodes exactly the first [n] bytes
    and leaves every later byte of the stream unread. *)
Theorem receive_consumes_declared_length
  (self : WhatsminerTCP) (s : socket) (n : N) :
  sock self = Some s -> status s = Connected ->
  struct_unpack_I (fst (take_chunk 4 (incoming s))) = Ok n ->
  (n <= 8192)%N ->
  (N.to_nat n <= length (concat (snd (take_chunk 4 (incoming s)))))%nat ->
  exists s' body,
    concat (snd (take_chunk 4 (incoming s))) = body ++ concat (incoming s')
    /\ length body = N.to_nat n
    /\ _receive_response self
       = (text <- decode body ;; Ok (Some text), set_sock self (Some s'))
    /\ status s' = Connected.
Proof.
  intros E Hc Hu Hn Hlen.
  destruct (receive_response_state self s n E Hc Hu Hn)
    as [s' [Hrun [Hs [_ Hi]]]].
  exists s', (firstn (N.to_nat n) (concat (snd (take_chunk 4 (incoming s))))).
  rewrite Hi, firstn_skipn, length_firstn.
  repeat split; try assumption. lia.
Qed.

Lemma receive_consumes_declared_length_witness :
  _receive_response
    (snd (connect (Some [[nb 2; x00; x00; x00]; map nb (py "{}{")]) demo_tcp))
  = (Ok (Some (py "{}")),
     set_sock demo_tcp
       (Some (mkSocket Connected [map nb (py "{")] [] [CRecv 4; CRecv 2]))).
Proof.
  destruct (receive_consumes_declared_length
              (snd (connect (Some [[nb 2; x00; x00; x00]; map nb (py "{}{")])
                      demo_tcp))
              (mkSocket Connected [[nb 2; x00; x00; x00]; map nb (py "{}{")]
                 [] [])
              2 eq_refl eq_refl eq_refl)
    as [s' [body [_ [_ [H _]]]]].
  - vm_compute. discriminate.
  - vm_compute. lia.
  - vm_compute. reflexivity.
Defined.

(** A header that does not come whole in the first read is not waited
    for: when the first [recv(4)] brings fewer than four bytes, because
    the peer closed or because the segment was short, the function
    returns [None] with those bytes consumed and reads nothing more. *)
Theorem short_header_returns_none
  (self : WhatsminerTCP) (s : socket) :
  sock self = Some s -> status s = Connected ->
  (length (fst (take_chunk 4 (incoming s))) < 4)%nat ->
  _receive_response self
    = (Ok None,
       set_sock self
         (Some (mkSocket Connected (snd (take_chunk 4 (incoming s)))
                  (outgoing s) (calls s ++ [CRecv 4])))).
Proof.
  intros E Hc Hl. unfold _receive_response.
  rewrite (sbind_ok _ _ self _ _ (not_sock_some self s E)).
  rewrite (sbind_ok _ _ self _ _ (recv_step 4 self s E Hc)).
  apply Nat.ltb_lt in Hl. now rewrite Hl.
Qed.

Lemma short_header_returns_none_witness :
  fst (_receive_response
         (snd (connect (Some [[nb 2; x00]; [x00; x00]; map nb (py "{}")])
                 demo_tcp)))
  = Ok None.
Proof.
  rewrite (short_header_returns_none
             (snd (connect (Some [[nb 2; x00]; [x00; x00]; map nb (py "{}")])
                     demo_tcp))
             (mkSocket Connected [[nb 2; x00]; [x00; x00]; map nb (py "{}")]
                [] [])
             eq_refl eq_refl).
  - reflexivity.
  - vm_compute. lia.
Defined.

(** [send] on a connected socket refuses a length that does not fit in
    32 bits before it writes anything. *)
Theorem send_bad_length_writes_nothing
  (json_loads : pystr -> result pyval) (self : WhatsminerTCP) (s : socket)
  (message : pystr) (message_length : Z) :
  sock self = Some s ->
  (message_length < 0 \/ 4294967296 <= message_length)%Z ->
  send json_loads message message_length self = (Raise StructError, self).
Proof.
  intros E Hr. unfold send.
  rewrite (sbind_ok _ _ self _ _ (not_sock_some self s E)).
  unfold lift at 1. unfold sbind at 1. unfold struct_pack_I.
  assert (H : ((0 <=? message_length) && (message_length <? 4294967296))%Z
              = false).
  { apply andb_false_iff. destruct Hr as [Hr|Hr];
      [left; apply Z.leb_gt | right; apply Z.ltb_ge]; exact Hr. }
  now rewrite H.
Qed.

Lemma send_bad_length_writes_nothing_witness :
  send keep_text (py "{}") (-1) (snd (connect (Some []) demo_tcp))
  = (Raise StructError, snd (connect (Some []) demo_tcp)).
Proof.
  apply (send_bad_length_writes_nothing keep_text _
           (mkSocket Connected [] [] [])).
  - reflexivity.
  - left. reflexivity.
Defined.

(** A message with no UTF-8 form is found out too late: the length
    header is already on the wire when [message.encode()] raises, and no
    payload follows it. *)
Theorem send_unencodable_leaves_bare_header
  (json_loads : pystr -> result pyval) (self : WhatsminerTCP) (s : socket)
  (message : pystr) (message_length : Z) (hdr : bytes) :
  sock self = Some s -> status s = Connected ->
  struct_pack_I message_length = Ok hdr ->
  encode message = Raise UnicodeEncodeError ->
  send json_loads message message_length self
    = (Raise UnicodeEncodeError,
       set_sock self
         (Some (mkSocket Connected (incoming s) (outgoing s ++ hdr)
                  (calls s ++ [CSendall hdr])))).
Proof.
  intros E Hc Hp He. unfold send.
  rewrite (sbind_ok _ _ self _ _ (not_sock_some self s E)).
  unfold lift at 1. unfold sbind at 1. rewrite Hp.
  rewrite (sbind_ok _ _ self _ _ (sendall_step hdr self s E Hc)).
  unfold lift at 1. unfold sbind at 1. now rewrite He.
Qed.

Lemma send_unencodable_leaves_bare_header_witness :
  option_map outgoing
    (sock (snd (send keep_text [55296%N] 1 (snd (connect (Some []) demo_tcp)))))
  = Some [nb 1; x00; x00; x00].
Proof.
  rewrite (send_unencodable_leaves_bare_header keep_text
             (snd (connect (Some []) demo_tcp)) (mkSocket Connected [] [] [])
             [55296%N] 1 [nb 1; x00; x00; x00]); reflexivity.
Defined.

(** After [close] the transport still holds its socket: [send] passes the
    guard and fails on the closed socket with [OSError], not with the
    "Not connected" [RuntimeError], and [_receive_response] raises
    instead of returning [None].  Nothing is written. *)
Theorem use_after_close_raises_oserror
  (json_loads : pystr -> result pyval) (self : WhatsminerTCP)
  (segments : list bytes) (message : pystr) (message_length : Z)
  (hdr : bytes) :
  struct_pack_I message_length = Ok hdr ->
  let closed := snd (close (snd (connect (Some segments) self))) in
  fst (send json_loads message message_length closed) = Raise (OSError "EBADF")
  /\ fst (_receive_response closed) = Raise (OSError "EBADF")
  /\ option_map outgoing
       (sock (snd (send json_loads message message_length closed)))
     = Some [].
Proof.
  intros Hp closed. unfold closed, send. cbn [connect snd].
  repeat split.
  - cbv [close sbind not_sock with_sock sock set_sock sock_shutdown sock_close
         log status fst snd sret lift]. cbn. now rewrite Hp.
  - cbv [close sbind not_sock with_sock sock set_sock sock_shutdown sock_close
         log status fst snd sret lift]. cbn. now rewrite Hp.
Qed.

Lemma use_after_close_raises_oserror_witness :
  fst (send keep_text (py "{}") 2
         (snd (close (snd (connect (Some []) demo_tcp)))))
  = Raise (OSError "EBADF").
Proof.
  apply (use_after_close_raises_oserror keep_text demo_tcp [] (py "{}") 2
           [nb 2; x00; x00; x00]).
  reflexivity.
Defined.

(** A transport that never connected: [send] raises the "Not connected"
    [RuntimeError], [_receive_response] returns [None] and [close] does
    nothing; none of them changes the object. *)
Theorem never_connected_transport
  (json_loads : pystr -> result pyval) (self : WhatsminerTCP)
  (message : pystr) (message_length : Z) :
  sock self = None ->
  send json_loads message message_length self
    = (Raise (RuntimeError "Not connected. Call connect() first."), self)
  /\ _receive_response self = (Ok None, self)
  /\ close self = (Ok tt, self).
Proof.
  intros E. unfold send, _receive_response, close, sbind, not_sock.
  rewrite E. repeat split.
Qed.

Lemma never_connected_transport_witness :
  fst (send keep_text (py "{}") 2 demo_tcp)
  = Raise (RuntimeError "Not connected. Call connect() first.").
Proof.
  destruct (never_connected_transport keep_text demo_tcp (py "{}") 2 eq_refl)
    as [H _].
  now rewrite H.
Defined.

(** ** UTF-8 round trip *)

Lemma split64 (c : N) :
  exists q r, (c / 64 = q /\ c mod 64 = r /\ c = 64 * q + r /\ r < 64)%N.
Proof.
  exists (c / 64)%N, (c mod 64)%N. repeat split.
  - apply N.div_mod. discriminate.
  - apply N.mod_upper_bound. discriminate.
Qed.

Ltac decide_tests :=
  repeat match goal with
         | |- context [(?a <? ?b)%N] =>
             first [ replace (a <? b)%N with true
                       by (symmetry; apply N.ltb_lt; lia)
                   | replace (a <? b)%N with false
                       by (symmetry; apply N.ltb_ge; lia) ]
         | |- context [(?a <=? ?b)%N] =>
             first [ replace (a <=? b)%N with true
                       by (symmetry; apply N.leb_le; lia)
                   | replace (a <=? b)%N with false
                       by (symmetry; apply N.leb_gt; lia) ]
         end.

Lemma utf8_decode_encode_cp (c : N) (bc rest : bytes) (fuel : nat) :
  utf8_encode_cp c = Some bc ->
  utf8_decode_opt (S fuel) (bc ++ rest)
    = option_map (cons c) (utf8_decode_opt fuel rest).
Proof.
  unfold utf8_encode_cp.
  replace (c / 262144)%N with (c / 64 / 64 / 64)%N
    by (now rewrite !N.Div0.div_div).
  replace (c / 4096)%N with (c / 64 / 64)%N by (now rewrite N.Div0.div_div).
  destruct (split64 c) as [q1 [r1 [Q1 [R1 [E1 B1]]]]]. rewrite Q1, R1.
  destruct (split64 q1) as [q2 [r2 [Q2 [R2 [E2 B2]]]]]. rewrite Q2, R2.
  destruct (split64 q2) as [q3 [r3 [Q3 [R3 [E3 B3]]]]]. rewrite Q3, R3.
  clear Q1 R1 Q2 R2 Q3 R3.
  destruct (c <? 128)%N eqn:T1.
  { intros H; some_inj H. apply N.ltb_lt in T1.
    cbn [app utf8_decode_opt]. rewrite (bn_nb c) by lia.
    apply N.ltb_lt in T1. now rewrite T1. }
  apply N.ltb_ge in T1.
  destruct (c <? 2048)%N eqn:T2.
  { intros H; some_inj H. apply N.ltb_lt in T2.
    cbn [app utf8_decode_opt]. unfold is_cont.
    rewrite !bn_nb by lia. decide_tests.
    replace ((192 + q1 - 192) * 64 + (128 + r1 - 128))%N with c by lia.
    decide_tests. reflexivity. }
  apply N.ltb_ge in T2.
  destruct (c <? 65536)%N eqn:T3.
  { apply N.ltb_lt in T3. unfold is_surrogate.
    destruct ((55296 <=? c) && (c <=? 57343))%N eqn:Es; [discriminate|].
    intros H; some_inj H.
    cbn [app utf8_decode_opt]. unfold is_cont, is_surrogate.
    rewrite !bn_nb by lia. decide_tests.
    replace ((224 + q2 - 224) * 4096 + (128 + r2 - 128) * 64
             + (128 + r1 - 128))%N with c by lia.
    rewrite Es. decide_tests. reflexivity. }
  apply N.ltb_ge in T3.
  destruct (c <? 1114112)%N eqn:T4; [|discriminate].
  apply N.ltb_lt in T4. intros H; some_inj H.
  cbn [app utf8_decode_opt]. unfold is_cont.
  rewrite !bn_nb by lia. decide_tests.
  replace ((240 + q3 - 240) * 262144 + (128 + r3 - 128) * 4096
           + (128 + r2 - 128) * 64 + (128 + r1 - 128))%N with c by lia.
  decide_tests. reflexivity.
Qed.

Lemma utf8_encode_cp_length (c : N) (bc : bytes) :
  utf8_encode_cp c = Some bc -> (1 <= length bc)%nat.
Proof.
  unfold utf8_encode_cp.
  repeat match goal with
         | |- context [if ?b then _ else _] => destruct b
         end; intros [= <-]; simpl; lia.
Qed.

Lemma utf8_decode_encode (s : pystr) :
  forall (b : bytes) (fuel : nat),
    utf8_encode_opt s = Some b -> (length b <= fuel)%nat ->
    utf8_decode_opt fuel b = Some s.
Proof.
  induction s as [|c s IH]; intros b fuel H Hf.
  - injection H as <-. now destruct fuel.
  - cbn [utf8_encode_opt] in H.
    destruct (utf8_encode_cp c) as [bc|] eqn:Ec; [|discriminate].
    destruct (utf8_encode_opt s) as [bs|] eqn:Es; [|discriminate].
    injection H as <-. pose proof (utf8_encode_cp_length c bc Ec) as Hl.
    rewrite length_app in Hf.
    destruct fuel as [|fuel]; [lia|].
    rewrite (utf8_decode_encode_cp c bc bs fuel Ec).
    rewrite (IH bs fuel eq_refl) by lia. reflexivity.
Qed.

(** [decode] undoes [encode]. *)
Lemma decode_encode (s : pystr) (b : bytes) :
  encode s = Ok b -> decode b = Ok s.
Proof.
  unfold encode, decode.
  destruct (utf8_encode_opt s) as [b'|] eqn:E; [|discriminate].
  intros [= <-]. now rewrite (utf8_decode_encode s b' _ E (Nat.le_refl _)).
Qed.

(** ** Sending what the codec builds *)

Lemma send_outgoing (json_loads : pystr -> result pyval) (self : WhatsminerTCP)
  (s : socket) (message : pystr) (message_length : Z) (hdr payload : bytes) :
  sock self = Some s -> status s = Connected ->
  struct_pack_I message_length = Ok hdr -> encode message = Ok payload ->
  option_map outgoing
    (sock (snd (send json_loads message message_length self)))
    = Some (outgoing s ++ hdr ++ payload).
Proof.
  intros E Hc Hp He.
  rewrite (send_steps json_loads message message_length self s hdr payload
             E Hc Hp He).
  match goal with
  | |- option_map outgoing (sock (snd (?m ?st))) = _ =>
      assert (K : keeps same_outgoing m)
  end.
  { apply keeps_sbind; [apply keeps_receive_response|].
    intros [text|]; [apply keeps_lift | apply keeps_sraise]. }
  match goal with
  | |- option_map outgoing (sock (snd (_ ?st))) = _ =>
      destruct (K st) as [K1 _]
  end.
  rewrite K1. reflexivity.
Qed.

Lemma read_frame_pack (hdr payload : bytes) :
  struct_pack_I (Z.of_nat (length payload)) = Ok hdr ->
  Spec.read_frame (hdr ++ payload) = Some (N.of_nat (length payload), payload).
Proof.
  intros Hp.
  pose proof (struct_pack_I_length _ hdr Hp) as Hl.
  pose proof (struct_unpack_pack _ hdr Hp) as Hu.
  unfold Spec.read_frame.
  rewrite (firstn_app_length _ _ 4 Hl), (skipn_app_length _ _ 4 Hl), Hu.
  rewrite Z_N_nat, Nat2Z.id, firstn_all, Nat.eqb_refl.
  now rewrite <- nat_N_Z, N2Z.id.
Qed.

Lemma codec_text_ascii (self : WhatsminerAPIv3) (now : Z) (text : pystr) :
  codec_text self now text -> is_ascii text.
Proof.
  intros [[cmd [param H]] | [[cmd [param H]] | [H | H]]].
  - unfold get_request_cmds in H. now apply json_dumps_ascii in H.
  - unfold set_request_cmds in H.
    destruct (set_request_payload self now cmd param); [|discriminate].
    now apply json_dumps_ascii in H.
  - destruct H as [u1 [w1 [p1 [u2 [w2 [p2 [u3 [w3 [p3 H]]]]]]]]].
    unfold set_miner_pools in H.
    destruct (set_miner_pools_payload _ _ _ _ _ _ _ _ _ _ _); [|discriminate].
    now apply json_dumps_ascii in H.
  - destruct H as [username [old_passwd [new_passwd H]]].
    unfold set_user_passwd in H.
    destruct (set_user_passwd_payload _ _ _ _ _); [|discriminate].
    now apply json_dumps_ascii in H.
Qed.

(** The scripts send a request as [send(req_info, len(req_info))].  Every
    text the codec builds is ASCII, so its [len] is its byte length: the
    frame written has a header equal to the length of the payload, and a
    peer reading it recovers the text byte for byte. *)
Theorem codec_text_is_well_framed
  (json_loads : pystr -> result pyval) (api : WhatsminerAPIv3) (now : Z)
  (text : pystr) (self : WhatsminerTCP) (s : socket) :
  codec_text api now text ->
  sock self = Some s -> status s = Connected ->
  (Z.of_nat (length text) < 4294967296)%Z ->
  exists hdr,
    struct_pack_I (Z.of_nat (length text)) = Ok hdr
    /\ option_map outgoing
         (sock (snd (send json_loads text (Z.of_nat (length text)) self)))
       = Some (outgoing s ++ hdr ++ map nb text)
    /\ Spec.read_frame (hdr ++ map nb text)
       = Some (N.of_nat (length text), map nb text).
Proof.
  intros Ht E Hc Hlen.
  pose proof (encode_ascii text (codec_text_ascii api now text Ht)) as He.
  destruct (struct_pack_I (Z.of_nat (length text))) as [hdr|e] eqn:Hp.
  - exists hdr. split; [reflexivity|]. split.
    + exact (send_outgoing json_loads self s text _ hdr _ E Hc Hp He).
    + rewrite <- (length_map nb text) in Hp |- *. now apply read_frame_pack.
  - exfalso. unfold struct_pack_I in Hp.
    assert (H : ((0 <=? Z.of_nat (length text))
                 && (Z.of_nat (length text) <? 4294967296))%Z = true).
    { apply andb_true_intro. split; [apply Z.leb_le | apply Z.ltb_lt]; lia. }
    rewrite H in Hp. discriminate.
Qed.

Lemma codec_text_is_well_framed_witness :
  option_map outgoing
    (sock (snd (send keep_text
                  (py "{" ++ quoted (py "cmd") ++ py ": "
                     ++ quoted (py "get.device.info") ++ py ", "
                     ++ quoted (py "param") ++ py ": null}")
                  41 (snd (connect (Some []) demo_tcp)))))
  = Some ([nb 41; x00; x00; x00]
            ++ map nb (py "{" ++ quoted (py "cmd") ++ py ": "
                         ++ quoted (py "get.device.info") ++ py ", "
                         ++ quoted (py "param") ++ py ": null}")).
Proof.
  destruct (codec_text_is_well_framed keep_text demo_api demo_ts
              (py "{" ++ quoted (py "cmd") ++ py ": "
                 ++ quoted (py "get.device.info") ++ py ", "
                 ++ quoted (py "param") ++ py ": null}")
              (snd (connect (Some []) demo_tcp))
              (mkSocket Connected [] [] []))
    as [hdr [Hp [Ho _]]].
  - left. exists (py "get.device.info"), PNone. reflexivity.
  - reflexivity.
  - reflexivity.
  - vm_compute. reflexivity.
  - injection Hp as <-. exact Ho.
Defined.

(** A request the peer echoes in a frame comes back as the same text:
    what [send] hands to [json.loads] is the message it encoded. *)
Theorem send_echo_round_trip
  (json_loads : pystr -> result pyval) (self : WhatsminerTCP) (s : socket)
  (message : pystr) (hdr payload later : bytes) :
  sock self = Some s -> status s = Connected ->
  encode message = Ok payload -> (Z.of_nat (length payload) <= 8192)%Z ->
  struct_pack_I (Z.of_nat (length payload)) = Ok hdr ->
  fst (take_chunk 4 (incoming s)) = hdr ->
  concat (snd (take_chunk 4 (incoming s))) = payload ++ later ->
  fst (send json_loads message (Z.of_nat (length payload)) self)
    = json_loads message.
Proof.
  intros E Hc He Hl Hp Hh Hs.
  rewrite (send_steps json_loads message _ self s hdr payload E Hc Hp He).
  pose proof (struct_unpack_pack _ hdr Hp) as Hu.
  match goal with
  | |- fst (sbind _ _ ?st) = _ =>
      destruct (receive_response_state st _ (Z.to_N (Z.of_nat (length payload)))
                  eq_refl eq_refl) as [s' [Hrun _]]
  end.
  - cbn [incoming]. now rewrite Hh.
  - lia.
  - unfold sbind. rewrite Hrun. cbn [incoming]. rewrite Hs.
    rewrite Z_N_nat, Nat2Z.id.
    rewrite (firstn_app_length _ _ _ eq_refl).
    rewrite (decode_encode message payload He). reflexivity.
Qed.

Lemma send_echo_round_trip_witness :
  fst (send keep_text [123; 233; 125]%N 4
         (snd (connect (Some [[nb 4; x00; x00; x00];
                              map nb [123; 195; 169; 125]%N]) demo_tcp)))
  = Ok (PStr [123; 233; 125]%N).
Proof.
  apply (send_echo_round_trip keep_text
           (snd (connect (Some [[nb 4; x00; x00; x00];
                                map nb [123; 195; 169; 125]%N]) demo_tcp))
           (mkSocket Connected
              [[nb 4; x00; x00; x00]; map nb [123; 195; 169; 125]%N] [] [])
           [123; 233; 125]%N [nb 4; x00; x00; x00]
           (map nb [123; 195; 169; 125]%N) []);
    try reflexivity.
  vm_compute. discriminate.
Defined.

(** ** More on the codec *)

Lemma b64_char_token (i : N) : is_token_char (bn (b64_char i)) = true.
Proof.
  assert (H : forallb (fun k => is_token_char (bn (b64_char (N.of_nat k))))
                (seq 0 64) = true) by (vm_compute; reflexivity).
  rewrite forallb_forall in H.
  assert (E : b64_char i = b64_char (N.of_nat (N.to_nat (i mod 64)))).
  { unfold b64_char. rewrite N2Nat.id. now rewrite N.Div0.mod_mod. }
  assert (Hlt : (N.to_nat (i mod 64) < 64)%nat).
  { assert (Hm : (i mod 64 < 64)%N) by (apply N.mod_upper_bound; discriminate).
    lia. }
  rewrite E. apply H. apply in_seq. split; [apply Nat.le_0_l | exact Hlt].
Qed.

Lemma token_char_ranges (c : N) :
  is_token_char c = true ->
  (65 <= c <= 90 \/ 97 <= c <= 122 \/ 48 <= c <= 57 \/ c = 43 \/ c = 47)%N.
Proof.
  unfold is_token_char. intros H.
  repeat (apply orb_prop in H; destruct H as [H|H]);
    try (apply andb_prop in H; destruct H as [H1 H2]);
    repeat match goal with
           | H : (_ <=? _)%N = true |- _ => apply N.leb_le in H
           | H : (_ =? _)%N = true |- _ => apply N.eqb_eq in H
           end; lia.
Qed.

Lemma b64_char_ranges (c : N) :
  is_b64_char c = true ->
  (65 <= c <= 90 \/ 97 <= c <= 122 \/ 48 <= c <= 57 \/ c = 43 \/ c = 47
   \/ c = 61)%N.
Proof.
  unfold is_b64_char. intros H.
  repeat (apply orb_prop in H; destruct H as [H|H]);
    try (apply andb_prop in H; destruct H as [H1 H2]);
    repeat match goal with
           | H : (_ <=? _)%N = true |- _ => apply N.leb_le in H
           | H : (_ =? _)%N = true |- _ => apply N.eqb_eq in H
           end; lia.
Qed.

(** Base64 text needs no escape in JSON. *)
Lemma escape_b64_char (c : N) : is_b64_char c = true -> escape_char c = [c].
Proof.
  intros H. apply b64_char_ranges in H. unfold escape_char.
  replace (c =? 34)%N with false by (symmetry; apply N.eqb_neq; lia).
  replace (c =? 92)%N with false by (symmetry; apply N.eqb_neq; lia).
  replace (c =? 8)%N with false by (symmetry; apply N.eqb_neq; lia).
  replace (c =? 12)%N with false by (symmetry; apply N.eqb_neq; lia).
  replace (c =? 10)%N with false by (symmetry; apply N.eqb_neq; lia).
  replace (c =? 13)%N with false by (symmetry; apply N.eqb_neq; lia).
  replace (c =? 9)%N with false by (symmetry; apply N.eqb_neq; lia).
  replace (32 <=? c)%N with true by (symmetry; apply N.leb_le; lia).
  replace (c <=? 126)%N with true by (symmetry; apply N.leb_le; lia).
  reflexivity.
Qed.

Lemma encode_basestring_b64 (s : pystr) :
  Forall (fun c => is_b64_char c = true) s ->
  encode_basestring_ascii s = quoted s.
Proof.
  intros H. unfold encode_basestring_ascii, quoted, dq. do 2 f_equal.
  induction H as [|c s Hc _ IH]; [reflexivity|].
  cbn [flat_map]. now rewrite (escape_b64_char c Hc), IH.
Qed.

Lemma token_char_is_b64 (c : N) : is_token_char c = true -> is_b64_char c = true.
Proof.
  unfold is_token_char, is_b64_char. intros H. rewrite H. reflexivity.
Qed.

(** Every token is made of 8 characters among the letters, the digits,
    [+] and [/], never the padding [=]; it therefore stands in the
    envelope text as it is, between double quotes. *)
Theorem token_is_plain_base64
  (self : WhatsminerAPIv3) (cmd : pystr) (ts : Z) (token : pystr) :
  _generate_token self cmd ts = Ok token ->
  length token = 8%nat
  /\ Forall (fun c => is_token_char c = true) token
  /\ encode_basestring_ascii token = quoted token.
Proof.
  intros H. rewrite generate_token_key in H.
  pose proof (deriveKeyMaterial_cases cmd (password self) (salt self) ts) as Hl.
  destruct (Spec.deriveKeyMaterial cmd (password self) (salt self) ts)
    as [key|e]; [|discriminate].
  cbn [bind] in H. injection H as <-.
  do 6 (destruct key as [|? key]; [discriminate Hl|]).
  assert (Ht : Forall (fun c => is_token_char c = true)
                 (firstn 8 (Spec.b64text (b :: b0 :: b1 :: b2 :: b3 :: b4 :: key)))).
  { unfold Spec.b64text. cbn [b64encode map firstn].
    repeat (constructor; [apply b64_char_token|]). constructor. }
  split; [reflexivity|]. split; [exact Ht|].
  apply encode_basestring_b64.
  eapply Forall_impl; [|exact Ht]. intros c. apply token_char_is_b64.
Qed.

Lemma token_is_plain_base64_witness :
  _generate_token demo_api (py "set.miner.service") demo_ts = Ok (py "07k4sZ5A")
  /\ encode_basestring_ascii (py "07k4sZ5A") = quoted (py "07k4sZ5A").
Proof.
  split; [vm_compute; reflexivity|].
  apply (token_is_plain_base64 demo_api (py "set.miner.service") demo_ts).
  vm_compute. reflexivity.
Defined.

(** The digest input has no separators: two settings whose command,
    password, salt and decimal timestamp concatenate to the same string
    get the same token and encrypt under the same key. *)
Theorem token_depends_on_concatenation_only
  (self1 self2 : WhatsminerAPIv3) (cmd1 cmd2 param : pystr) (ts1 ts2 : Z) :
  cmd1 ++ password self1 ++ salt self1 ++ str_of_int ts1
    = cmd2 ++ password self2 ++ salt self2 ++ str_of_int ts2 ->
  _generate_token self1 cmd1 ts1 = _generate_token self2 cmd2 ts2
  /\ _encrypt_param self1 param cmd1 ts1 = _encrypt_param self2 param cmd2 ts2.
Proof.
  intros H. unfold _generate_token, _encrypt_param. now rewrite H.
Qed.

Lemma token_depends_on_concatenation_only_witness :
  _generate_token (mkAPI (py "super") (py "super") (py "ab12cd34"))
    (py "set.miner.service") 1700000000
  = _generate_token (mkAPI (py "super") (py "supera") (py "b12cd341"))
      (py "set.miner.service") 700000000.
Proof.
  apply (token_depends_on_concatenation_only
           (mkAPI (py "super") (py "super") (py "ab12cd34"))
           (mkAPI (py "super") (py "supera") (py "b12cd341"))
           (py "set.miner.service") (py "set.miner.service") []
           1700000000 700000000).
  reflexivity.
Defined.

Lemma ascii_param_round_trip_witness :
  is_ascii (py "[1, 2]")
  /\ exists cipher ct,
       AES.new (SHA256.digest
                  (map nb (py "set.miner.poolssuperab12cd341700000000")))
         = Ok cipher
       /\ _encrypt_param demo_api (py "[1, 2]") (py "set.miner.pools") demo_ts
          = Ok (Spec.b64text ct)
       /\ (1 <= Spec.pad_len (length (py "[1, 2]")) <= 16)%nat
       /\ length ct
          = (length (py "[1, 2]") + Spec.pad_len (length (py "[1, 2]")))%nat
       /\ (padded <- AES.decrypt cipher ct ;; Ok (Spec.unpad padded))
          = Ok (map nb (py "[1, 2]")).
Proof.
  split; [apply is_asciib_spec; reflexivity|].
  apply (ascii_param_round_trip demo_api (py "[1, 2]") (py "set.miner.pools")
           demo_ts).
  - apply is_asciib_spec. reflexivity.
  - vm_compute. reflexivity.
Defined.

(** The shared body of the two encrypted builders, down to the text. *)
Lemma encrypted_text_shape (self : WhatsminerAPIv3) (now : Z) (cmd : pystr)
  (param_data : pyval) (plaintext : pystr) (key : bytes) :
  json_dumps param_data = Ok plaintext ->
  Spec.deriveKeyMaterial cmd (password self) (salt self) now = Ok key ->
  exists token encrypted,
    _generate_token self cmd now = Ok token
    /\ _encrypt_param self plaintext cmd now = Ok encrypted
    /\ Forall (fun c => is_b64_char c = true) encrypted
    /\ (payload <-
          (token <- _generate_token self cmd now ;;
           plaintext <- json_dumps param_data ;;
           encrypted <- _encrypt_param self plaintext cmd now ;;
           Ok (dict_update [(py "cmd", PStr cmd)]
                 [(py "ts", PInt now); (py "token", PStr token);
                  (py "account", PStr (account self));
                  (py "param", PStr encrypted)])) ;;
        json_dumps (PDict payload))
       = Ok (encrypted_envelope_text cmd now token (account self) encrypted).
Proof.
  intros Hj Hk.
  pose proof (json_dumps_ascii param_data plaintext Hj) as Ha.
  destruct (encrypt_param_ascii_ok self plaintext cmd now key Ha Hk)
    as [cipher [ct [_ [_ [_ Hp]]]]].
  destruct (_generate_token self cmd now) as [token|e] eqn:Ht.
  - exists token, (Spec.b64text ct).
    assert (Htok : encode_basestring_ascii token = quoted token).
    { rewrite generate_token_key, Hk in Ht. cbn [bind] in Ht.
      assert (Et : token = firstn 8 (Spec.b64text key)) by congruence.
      rewrite Et. apply encode_basestring_b64.
      apply Forall_take. apply b64text_alphabet. }
    split; [reflexivity|]. split; [exact Hp|].
    split; [apply b64text_alphabet|].
    cbn [bind]. rewrite Hj. cbn [bind]. rewrite Hp. cbn [bind].
    assert (Hd : dict_update [(py "cmd", PStr cmd)]
                   [(py "ts", PInt now); (py "token", PStr token);
                    (py "account", PStr (account self));
                    (py "param", PStr (Spec.b64text ct))]
                 = [(py "cmd", PStr cmd); (py "ts", PInt now);
                    (py "token", PStr token);
                    (py "account", PStr (account self));
                    (py "param", PStr (Spec.b64text ct))]) by reflexivity.
    rewrite Hd. unfold json_dumps, encrypted_envelope_text.
    cbn [json_dumps_opt map sequence fst snd option_map join].
    rewrite Htok, (encode_basestring_b64 _ (b64text_alphabet ct)).
    f_equal. repeat rewrite <- app_assoc. reflexivity.
  - rewrite generate_token_key, Hk in Ht. discriminate.
Qed.

(** [set_miner_pools] and [set_user_passwd] return an envelope for any
    data, ASCII or not, as soon as key material exists for the command:
    serialising, padding and encrypting never fail.  The envelope has
    the members [cmd], [ts], [token], [account], [param] in this order,
    with the token and the encrypted text as they are between quotes. *)
Theorem encrypted_builders_succeed_on_any_data
  (self : WhatsminerAPIv3) (now : Z)
  (u1 w1 p1 u2 w2 p2 u3 w3 p3 username old_passwd new_passwd : pystr) :
  (forall key,
      Spec.deriveKeyMaterial (py "set.miner.pools") (password self)
        (salt self) now = Ok key ->
      exists token encrypted,
        _generate_token self (py "set.miner.pools") now = Ok token
        /\ Forall (fun c => is_b64_char c = true) encrypted
        /\ set_miner_pools self now u1 w1 p1 u2 w2 p2 u3 w3 p3
           = Ok (encrypted_envelope_text (py "set.miner.pools") now token
                   (account self) encrypted))
  /\ (forall key,
         Spec.deriveKeyMaterial (py "set.user.change_passwd") (password self)
           (salt self) now = Ok key ->
         exists token encrypted,
           _generate_token self (py "set.user.change_passwd") now = Ok token
           /\ Forall (fun c => is_b64_char c = true) encrypted
           /\ set_user_passwd self now username old_passwd new_passwd
              = Ok (encrypted_envelope_text (py "set.user.change_passwd") now
                      token (account self) encrypted)).
Proof.
  split; intros key Hk.
  - destruct (encrypted_text_shape self now (py "set.miner.pools")
                (PList
                   [PDict [(py "pool", PStr u1); (py "worker", PStr w1);
                           (py "passwd", PStr p1)];
                    PDict [(py "pool", PStr u2); (py "worker", PStr w2);
                           (py "passwd", PStr p2)];
                    PDict [(py "pool", PStr u3); (py "worker", PStr w3);
                           (py "passwd", PStr p3)]])
                _ key eq_refl Hk) as [token [enc [H1 [_ [H3 H4]]]]].
    exists token, enc. repeat split; assumption.
  - destruct (encrypted_text_shape self now (py "set.user.change_passwd")
                (PDict [(py "account", PStr username);
                        (py "new", PStr new_passwd);
                        (py "old", PStr old_passwd)])
                _ key eq_refl Hk) as [token [enc [H1 [_ [H3 H4]]]]].
    exists token, enc. repeat split; assumption.
Qed.

Lemma encrypted_builders_succeed_on_any_data_witness :
  exists token encrypted,
    _generate_token demo_api (py "set.user.change_passwd") demo_ts = Ok token
    /\ Forall (fun c => is_b64_char c = true) encrypted
    /\ set_user_passwd demo_api demo_ts (py "user1") [233%N] [55296%N]
       = Ok (encrypted_envelope_text (py "set.user.change_passwd") demo_ts
               token (account demo_api) encrypted).
Proof.
  apply (proj2 (encrypted_builders_succeed_on_any_data demo_api demo_ts
                  [] [] [] [] [] [] [] [] []
                  (py "user1") [233%N] [55296%N])
           (SHA256.digest
              (map nb (py "set.user.change_passwdsuperab12cd341700000000")))).
  vm_compute. reflexivity.
Defined.

(** ** The serial-number script, connected *)

















